(** * rss_to_telegram: a shallow embedding and its properties

    The script [rss_to_telegram.py] polls one feed, picks the entries it has
    not posted yet, renders each as a text message, posts the messages to a
    Telegram channel and records the identifiers it delivered in
    [.state/state.json].

    Python strings are sequences of code points: they are modelled as
    [list N], so that [len], slicing and [strip] count what Python counts.
    The strings of the in-memory [seen] set are a [gset]; exceptions are a
    sum type; the file, the network, the file system and the standard
    output are an explicit state and an explicit world threaded through
    [main]. *)

From Stdlib Require Import ZArith NArith Floats Ascii String.
From stdpp Require Import base list gmap sets pretty sorting.

Local Open Scope Z_scope.
#[local] Set Warnings "-clear-no-such-hyp".

(** ** Python strings *)

Abbreviation str := (list N).

(** An ASCII literal of the source as a sequence of code points. *)
Definition lit (s : string) : str :=
  N_of_ascii <$> list_ascii_of_string s.

Definition SPACE : N := 32%N.
Definition LF : N := 10%N.
Definition CR : N := 13%N.

(** Truth value of a string: [bool(s)], false exactly for the empty string. *)
Definition str_truthy (s : str) : bool :=
  match s with [] => false | _ => true end.

(** [a or b] on strings. *)
Definition str_or (a b : str) : str :=
  if str_truthy a then a else b.

(** [str.isspace] on one code point: the characters [str.strip] removes
    (Unicode white space, as CPython's [Py_UNICODE_ISSPACE] lists it). *)
Definition is_space (c : N) : bool :=
  ((9 <=? c) && (c <=? 13) || (28 <=? c) && (c <=? 32)
   || (c =? 133) || (c =? 160) || (c =? 5760)
   || (8192 <=? c) && (c <=? 8202)
   || (c =? 8232) || (c =? 8233) || (c =? 8239) || (c =? 8287)
   || (c =? 12288))%N.

Fixpoint lstrip (s : str) : str :=
  match s with
  | c :: t => if is_space c then lstrip t else s
  | [] => []
  end.

Definition rstrip (s : str) : str := reverse (lstrip (reverse s)).

Definition strip (s : str) : str := lstrip (rstrip s).

(** [s.replace(old, new)] for a one-character [old]. *)
Definition replace_char (old new : N) (s : str) : str :=
  (fun c => if (c =? old)%N then new else c) <$> s.

(** ["  " in s]. *)
Fixpoint has_double_space (s : str) : bool :=
  match s with
  | a :: t =>
      match t with
      | b :: _ => (a =? SPACE)%N && (b =? SPACE)%N || has_double_space t
      | [] => false
      end
  | [] => false
  end.

(** [s.replace("  ", " ")]: the occurrences are replaced from the left and
    do not overlap. *)
Fixpoint replace_double_space (s : str) : str :=
  match s with
  | a :: t =>
      match t with
      | b :: u =>
          if (a =? SPACE)%N && (b =? SPACE)%N
          then SPACE :: replace_double_space u
          else a :: replace_double_space t
      | [] => [a]
      end
  | [] => []
  end.

(** [while "  " in s: s = s.replace("  ", " ")], with the number of rounds
    bounded by [fuel]; [collapse_spaces_enough] shows [length s] rounds are
    enough. *)
Fixpoint collapse_spaces (fuel : nat) (s : str) : str :=
  match fuel with
  | O => s
  | S fuel' =>
      if has_double_space s
      then collapse_spaces fuel' (replace_double_space s)
      else s
  end.

Definition clean_text (s : str) : str :=
  if negb (str_truthy s) then []
  else
    let s := replace_char CR SPACE (replace_char LF SPACE s) in
    let s := collapse_spaces (length s) s in
    strip s.

(** [sep.join(parts)]. *)
Fixpoint join (sep : str) (parts : list str) : str :=
  match parts with
  | [] => []
  | [p] => p
  | p :: rest => p ++ sep ++ join sep rest
  end.

(** ** Feed entries *)

(** [time.struct_time]: the nine fields of a broken-down time. *)
Record struct_time := {
  tm_year : Z; tm_mon : Z; tm_mday : Z;
  tm_hour : Z; tm_min : Z; tm_sec : Z;
  tm_wday : Z; tm_yday : Z; tm_isdst : Z
}.

(** An entry of the parsed feed. The script reads it only through
    [getattr(entry, name, default)]: a field is [None] when the attribute is
    absent and [Some s] when it holds the string [s]. *)
Record entry := {
  e_id : option str;
  e_guid : option str;
  e_link : option str;
  e_title : option str;
  e_published : option str;
  e_summary : option str;
  e_description : option str;
  e_published_parsed : option struct_time;
  e_updated_parsed : option struct_time
}.

(** [getattr(entry, name, "")]. *)
Definition getattr_str (a : option str) : str := default [] a.

(** [getattr(entry, name, None) or rest]: the attribute when it is present
    and not the empty string, [rest] otherwise. *)
Definition attr_or (a : option str) (rest : str) : str :=
  match a with
  | Some s => if str_truthy s then s else rest
  | None => rest
  end.

Definition pick_entry_id (e : entry) : str :=
  attr_or (e_id e)
    (attr_or (e_guid e)
       (attr_or (e_link e)
          (getattr_str (e_title e) ++ lit "|" ++ getattr_str (e_published e)))).

(** ** Message builder *)

(** The summary as [build_message] computes it (lines 43 to 47): the
    summary or else the description, cleaned, and cut when longer than 280
    characters. *)
Definition raw_summary (e : entry) : str :=
  str_or (str_or (getattr_str (e_summary e)) (getattr_str (e_description e))) [].

Definition truncate_summary (summary : str) : str :=
  if (280 <? length summary)%nat
  then rstrip (take 277 summary) ++ lit "..."
  else summary.

Definition summary_segment (e : entry) : str :=
  truncate_summary (clean_text (raw_summary e)).

(** The newspaper emoji U+1F4F0 followed by a space. *)
Definition title_prefix : str := [128240%N; SPACE].

Definition message_parts (title summary link source_title : str) : list str :=
  (if str_truthy title then [title_prefix ++ title] else [])
  ++ (if str_truthy summary then [summary] else [])
  ++ (if str_truthy link then [lit "Kaynak: " ++ link] else [])
  ++ (if str_truthy source_title then [lit "(" ++ source_title ++ lit ")"] else []).

Definition build_message (e : entry) (source_title : str) : str :=
  let title := clean_text (getattr_str (e_title e)) in
  let link := getattr_str (e_link e) in
  let summary := summary_segment e in
  strip (join [LF; LF] (message_parts title summary link source_title)).

(** ** Decoded JSON values and exceptions *)

(** What [json.loads] and [Response.json] return. A [PDict] lists the items
    of the dictionary. *)
#[warnings="-register-all"]
Inductive pyval :=
| PNone
| PBool (b : bool)
| PInt (z : Z)
| PFloat (f : float)
| PStr (s : str)
| PList (l : list pyval)
| PDict (d : list (str * pyval)).

(** [bool(v)]. *)
Definition truthy (v : pyval) : bool :=
  match v with
  | PNone => false
  | PBool b => b
  | PInt z => negb (z =? 0)
  | PFloat f => negb (PrimFloat.eqb f 0%float)
  | PStr s => str_truthy s
  | PList l => match l with [] => false | _ => true end
  | PDict d => match d with [] => false | _ => true end
  end.

(** [d.get(key)] on the items of a dictionary: [None] when the key is
    missing. *)
Fixpoint dict_get (d : list (str * pyval)) (key : str) : pyval :=
  match d with
  | [] => PNone
  | (k, v) :: rest => if decide (k = key) then v else dict_get rest key
  end.

Inductive exn :=
| SystemExit (msg : str)
| ValueError
| TypeError
| OSError
| PermissionError
| UnicodeEncodeError
| JSONDecodeError
| AttributeError
| RequestException
| HTTPError (status_code : Z)
| RuntimeError (data : pyval).

(** The outcome of a call: a value, or a raised exception. *)
Inductive res (A : Type) :=
| Ok (a : A)
| Raise (e : exn).
Arguments Ok {A} a.
Arguments Raise {A} e.

#[global] Instance res_ret : MRet res := fun A a => Ok a.
#[global] Instance res_bind : MBind res := fun A B f m =>
  match m with
  | Ok a => f a
  | Raise e => Raise e
  end.

(** [try: body  except Exception: handler]. *)
Definition try_except {A} (body : res A) (handler : exn -> res A) : res A :=
  match body with
  | Ok a => Ok a
  | Raise e => handler e
  end.

(** The exit status of the process: 0 when [main] returns, 1 when an
    exception (a [SystemExit] with a message included) leaves it. *)
Definition exit_status {A} (r : res A) : Z :=
  match r with
  | Ok _ => 0
  | Raise _ => 1
  end.

(** ** State store *)

(** The text of the state file: text that [json.loads] rejects, or the
    JSON text of a value, of any shape. *)
Inductive file_text :=
| NotJson
| Json (doc : pyval).

(** The state file on disk: missing; out of reach, when [.state] cannot be
    searched; present but unreadable ([read_text] raises); or present with
    a text. *)
Inductive file_state :=
| Missing
| Unsearchable
| Unreadable
| Holds (text : file_text).

(** [STATE_FILE.exists()]: [pathlib] answers [False] for a path that is not
    there and lets the other errors of [stat] through: a directory that may
    not be searched gives a [PermissionError]. *)
Definition file_exists (f : file_state) : res bool :=
  match f with
  | Missing => Ok false
  | Unsearchable => Raise PermissionError
  | _ => Ok true
  end.

Definition read_text (f : file_state) : res file_text :=
  match f with
  | Holds t => Ok t
  | _ => Raise OSError
  end.

Definition json_loads (t : file_text) : res pyval :=
  match t with
  | Json doc => Ok doc
  | NotJson => Raise JSONDecodeError
  end.

(** The empty dictionary. *)
Definition empty_doc : pyval := PDict [].

(** The test of line 13 stands outside the [try]. *)
Definition load_state (f : file_state) : res pyval :=
  file_exists f ≫= fun found : bool =>
  if found
  then try_except (t ← read_text f; json_loads t) (fun _ => Ok empty_doc)
  else Ok empty_doc.

(** What [save_state] meets: the document is written, or [mkdir] or
    [write_text] raises (an [OSError]; a [UnicodeEncodeError] for a string
    that UTF-8 cannot encode), before the file is touched or after it was
    opened for writing and so emptied. *)
Inductive save_outcome :=
| Saved
| NotSaved (e : exn) (emptied : bool).

(** ** The set of seen identifiers *)

(** The item of a dictionary under a key. *)
Fixpoint dict_lookup (d : list (str * pyval)) (key : str) : option pyval :=
  match d with
  | [] => None
  | (k, v) :: rest => if decide (k = key) then Some v else dict_lookup rest key
  end.

(** [d[key] = v] on the items of a dictionary: the item is replaced where
    it stands, or added at the end. *)
Fixpoint dict_set (d : list (str * pyval)) (key : str) (v : pyval)
    : list (str * pyval) :=
  match d with
  | [] => [(key, v)]
  | (k, v') :: rest =>
      if decide (k = key) then (k, v) :: rest else (k, v') :: dict_set rest key v
  end.

(** [state.get(key, default)]: only a dictionary has a [get]. *)
Definition state_get (state : pyval) (key : str) (dflt : pyval) : res pyval :=
  match state with
  | PDict d => Ok (default dflt (dict_lookup d key))
  | _ => Raise AttributeError
  end.

(** [state[key] = v]: among JSON values only a dictionary takes an item
    under a string. *)
Definition set_item (state : pyval) (key : str) (v : pyval) : res pyval :=
  match state with
  | PDict d => Ok (PDict (dict_set d key v))
  | _ => Raise TypeError
  end.

(** [iter(x)]: the elements of a list, the characters of a string, the keys
    of a dictionary; no other JSON value is iterable. *)
Definition py_iter (x : pyval) : res (list pyval) :=
  match x with
  | PList l => Ok l
  | PStr s => Ok ((fun c => PStr [c]) <$> s)
  | PDict d => Ok ((fun item => PStr item.1) <$> d)
  | _ => Raise TypeError
  end.

(** Lists and dictionaries cannot be put in a set. *)
Definition hashable (v : pyval) : bool :=
  match v with
  | PList _ | PDict _ => false
  | _ => true
  end.

(** What [set(x)] is given to hold, in order and with repetitions. *)
Definition set_elements (x : pyval) : res (list pyval) :=
  py_iter x ≫= fun l : list pyval =>
  if forallb hashable l then Ok l else Raise TypeError.

(** The argument of [set] on line 80 and its elements. *)
Definition seen_elements (state : pyval) : res (list pyval) :=
  x ← state_get state (lit "seen_ids") (PList []);
  set_elements x.

Definition string_of (v : pyval) : option str :=
  match v with
  | PStr s => Some s
  | _ => None
  end.

(** The strings of the set: an identifier is a string, so that [eid in seen]
    and [seen.add(eid)] concern them alone. *)
Definition string_members (l : list pyval) : gset str :=
  list_to_set (omap string_of l).

(** A number as Python compares it, whatever its type: not a number, an
    infinity, or [z * 2 ^ e] with [z] odd or zero. *)
Inductive numkey :=
| NotANumber
| Infinite (negative : bool)
| Dyadic (z e : Z).

Fixpoint strip_twos (p : positive) (e : Z) : positive * Z :=
  match p with
  | xO p' => strip_twos p' (e + 1)
  | _ => (p, e)
  end.

Definition dyadic (z e : Z) : numkey :=
  match z with
  | Z0 => Dyadic 0 0
  | Zpos p => let '(q, e') := strip_twos p e in Dyadic (Zpos q) e'
  | Zneg p => let '(q, e') := strip_twos p e in Dyadic (Zneg q) e'
  end.

Definition float_key (f : float) : numkey :=
  match Prim2SF f with
  | S754_zero _ => Dyadic 0 0
  | S754_infinity s => Infinite s
  | S754_nan => NotANumber
  | S754_finite s m e => dyadic (if s then Zneg m else Zpos m) e
  end.

(** What makes two hashable values that are not strings one element of a
    set: [None] is itself, and [True], [1] and [1.0] are one number. *)
Inductive hkey :=
| KeyNone
| KeyNum (n : numkey).

#[global] Instance numkey_eq_dec : EqDecision numkey.
Proof. solve_decision. Defined.

#[global] Instance hkey_eq_dec : EqDecision hkey.
Proof. solve_decision. Defined.

Definition foreign_key (v : pyval) : option hkey :=
  match v with
  | PNone => Some KeyNone
  | PBool b => Some (KeyNum (dyadic (if b then 1 else 0) 0))
  | PInt z => Some (KeyNum (dyadic z 0))
  | PFloat f => Some (KeyNum (float_key f))
  | _ => None
  end.

(** The first value of each key outside [kept], as a set keeps the first
    of equal elements. *)
Fixpoint distinct_by_key (kept : list hkey) (l : list pyval) : list pyval :=
  match l with
  | [] => []
  | v :: rest =>
      match foreign_key v with
      | Some k =>
          if decide (k ∈ kept) then distinct_by_key kept rest
          else v :: distinct_by_key (k :: kept) rest
      | None => distinct_by_key kept rest
      end
  end.

(** The members of the set that are not strings. The script never adds or
    removes one. *)
Definition foreign_members (l : list pyval) : list pyval :=
  distinct_by_key [] l.

(** The members that are not strings of the set built from a state. *)
Definition foreign_of (state : pyval) : list pyval :=
  match seen_elements state with
  | Ok l => foreign_members l
  | Raise _ => []
  end.

(** The set as [list] is given it: its strings, and its other members, each
    named by its place in their list. *)
Definition member_set (seen : gset str) (foreign : list pyval) : gset (str + nat) :=
  set_map inl seen ∪ list_to_set (inr <$> seq 0 (length foreign)).

Definition member_value (foreign : list pyval) (x : str + nat) : option pyval :=
  match x with
  | inl s => Some (PStr s)
  | inr i => foreign !! i
  end.

(** ** Delivery client *)

(** What [requests.post] gives: no response (it raised: connection error
    or timeout), or a response with its status code and its body decoded as
    JSON ([None] when the body is not JSON). *)
Inductive http_outcome :=
| NoResponse
| Response (status_code : Z) (body : option pyval).

(** [r.raise_for_status()]: raises for the 4xx and 5xx codes. *)
Definition raise_for_status (status_code : Z) : res unit :=
  if (400 <=? status_code) && (status_code <? 600)
  then Raise (HTTPError status_code)
  else Ok tt.

(** [r.json()]. *)
Definition response_json (body : option pyval) : res pyval :=
  match body with
  | Some v => Ok v
  | None => Raise JSONDecodeError
  end.

(** [data.get("ok")]: only a dictionary has a [get]. *)
Definition data_get (data : pyval) (key : str) : res pyval :=
  match data with
  | PDict d => Ok (dict_get d key)
  | _ => Raise AttributeError
  end.

(** Lines 64 to 68 of [telegram_send_message], on the outcome of the
    request. *)
Definition check_reply (o : http_outcome) : res unit :=
  match o with
  | NoResponse => Raise RequestException
  | Response status_code body =>
      raise_for_status status_code;;
      data ← response_json body;
      ok ← data_get data (lit "ok");
      if negb (truthy ok) then Raise (RuntimeError data) else Ok tt
  end.

(** ** The run: environment, state and effects *)

(** The process environment. [MAX_ITEMS] is kept as [int] reads it: [None]
    when the variable is unset, [Some None] when it is set to a text [int]
    rejects, [Some (Some n)] when it is set to a text [int] reads as [n]. *)
Record environ := {
  FEED_URL : option str;
  TELEGRAM_BOT_TOKEN : option str;
  TELEGRAM_CHANNEL : option str;
  MAX_ITEMS : option (option Z)
}.

(** What [feedparser.parse] returns, as far as the script looks at it: the
    title of the feed (when there is one to read) and the entries. *)
Record feed := {
  feed_title : option str;
  feed_entries : list entry
}.

(** What the run cannot change: the environment, the feed behind each
    address, the outcome of the n-th request to Telegram, and what the file
    system does with a document to write. *)
Record world := {
  w_environ : environ;
  w_fetch : str -> feed;
  w_reply : nat -> http_outcome;
  w_save : pyval -> save_outcome
}.

(** What the run does, in order. *)
Inductive event :=
| Post (url chat_id text : str)
| Sleep (seconds : Z)
| Print (line : str)
| WriteState (doc : pyval).

(** What the run changes: the set [seen] in memory, the state file, the
    number of requests made so far and the trace of its effects. *)
Record run_state := {
  mem_seen : gset str;
  disk : file_state;
  requests : nat;
  trace : list event
}.

Definition initial (f : file_state) : run_state :=
  {| mem_seen := ∅; disk := f; requests := O; trace := [] |}.

(** A command: it ends with a value or an exception, and leaves a state
    either way. *)
Definition M (A : Type) : Type := run_state -> res A * run_state.

#[global] Instance M_ret : MRet M := fun A a st => (Ok a, st).
#[global] Instance M_bind : MBind M := fun A B f m st =>
  match m st with
  | (Ok a, st') => f a st'
  | (Raise e, st') => (Raise e, st')
  end.

Definition raise {A} (e : exn) : M A := fun st => (Raise e, st).

Definition lift {A} (r : res A) : M A := fun st => (r, st).

Definition log (ev : event) : M unit := fun st =>
  (Ok tt, {| mem_seen := mem_seen st; disk := disk st;
             requests := requests st; trace := trace st ++ [ev] |}).

Definition print (line : str) : M unit := log (Print line).

Definition sleep (seconds : Z) : M unit := log (Sleep seconds).

Definition get_seen : M (gset str) := fun st => (Ok (mem_seen st), st).

Definition set_seen (s : gset str) : M unit := fun st =>
  (Ok tt, {| mem_seen := s; disk := disk st;
             requests := requests st; trace := trace st |}).

(** [seen.add(eid)]. *)
Definition seen_add (eid : str) : M unit := fun st =>
  (Ok tt, {| mem_seen := {[eid]} ∪ mem_seen st; disk := disk st;
             requests := requests st; trace := trace st |}).

Definition load_state_cmd : M pyval := fun st => (load_state (disk st), st).

(** [save_state]: the file now holds the document, and [WriteState] records
    the completed write; or the write fails, and leaves the file as it was
    or emptied. *)
Definition save_state (w : world) (doc : pyval) : M unit := fun st =>
  match w_save w doc with
  | Saved =>
      (Ok tt, {| mem_seen := mem_seen st; disk := Holds (Json doc);
                 requests := requests st; trace := trace st ++ [WriteState doc] |})
  | NotSaved e emptied =>
      (Raise e, {| mem_seen := mem_seen st;
                   disk := if emptied then Holds NotJson else disk st;
                   requests := requests st; trace := trace st |})
  end.

Definition sendMessage_url (token : str) : str :=
  lit "https://api.telegram.org/bot" ++ token ++ lit "/sendMessage".

Definition telegram_send_message (w : world) (token chat_id text : str) : M unit :=
  fun st =>
    (check_reply (w_reply w (requests st)),
     {| mem_seen := mem_seen st; disk := disk st;
        requests := S (requests st);
        trace := trace st ++ [Post (sendMessage_url token) chat_id text] |}).

(** [os.environ.get(name, "").strip()]. *)
Definition environ_get_stripped (v : option str) : str :=
  strip (default [] v).

(** [int(os.environ.get("MAX_ITEMS", "5"))]. *)
Definition max_items_of (v : option (option Z)) : res Z :=
  match v with
  | None => Ok 5
  | Some (Some n) => Ok n
  | Some None => Raise ValueError
  end.

(** ** Selection *)

(** [list.sort(key=key, reverse=True)]: descending by key; the sort is
    stable, so entries with equal keys keep their order. An element is put
    in front of a sorted tail, past the elements with a greater key. *)
Fixpoint insert_desc {A} (key : A -> Z) (x : A) (l : list A) : list A :=
  match l with
  | [] => [x]
  | y :: t => if key x <? key y then y :: insert_desc key x t else x :: l
  end.

Definition sort_reverse {A} (key : A -> Z) (l : list A) : list A :=
  foldr (insert_desc key) [] l.

(** The loop of lines 102 to 109, from the entries left to visit and the
    list [to_post] built so far. *)
Fixpoint select_loop (seen : gset str) (max_items : Z)
    (entries : list entry) (to_post : list (str * entry)) : list (str * entry) :=
  match entries with
  | [] => to_post
  | e :: rest =>
      let eid := pick_entry_id e in
      if decide (eid ∈ seen) then select_loop seen max_items rest to_post
      else
        let to_post := to_post ++ [(eid, e)] in
        if Z.of_nat (length to_post) >=? max_items then to_post
        else select_loop seen max_items rest to_post
  end.

(** [seen_list[-1000:]] when the list is longer than 1000. *)
Definition truncate_seen {A} (seen_list : list A) : list A :=
  if (1000 <? length seen_list)%nat
  then drop (length seen_list - 1000) seen_list
  else seen_list.

Section Run.

(** [time.mktime] depends on the time zone of the machine: it is a
    parameter, in seconds. *)
Variable mktime : struct_time -> Z.

(** [list(seen)]: the order in which a Python set is listed depends on the
    hashes of its elements; it is a parameter. *)
Variable set_to_list : gset (str + nat) -> list (str + nat).

(** [list(seen)], as values. *)
Definition list_of_seen (seen : gset str) (foreign : list pyval) : list pyval :=
  omap (member_value foreign) (set_to_list (member_set seen foreign)).

Variable w : world.

Definition entry_sort_key (e : entry) : Z :=
  let pp :=
    match e_published_parsed e with
    | Some t => Some t
    | None => e_updated_parsed e
    end in
  match pp with
  | Some t => mktime t
  | None => 0
  end.

(** Lines 100 to 115 without the early return: sort, select, reverse. *)
Definition selector (entries : list entry) (seen : gset str) (max_items : Z)
    : list (str * entry) :=
  reverse (select_loop seen max_items (sort_reverse entry_sort_key entries) []).

(** The loop of lines 117 to 123. *)
Fixpoint deliver (token chat_id source_title : str)
    (to_post : list (str * entry)) : M unit :=
  match to_post with
  | [] => mret tt
  | (eid, e) :: rest =>
      let msg := build_message e source_title in
      if negb (str_truthy msg) then deliver token chat_id source_title rest
      else
        telegram_send_message w token chat_id msg;;
        seen_add eid;;
        sleep 1;;
        deliver token chat_id source_title rest
  end.

(** Lines 125 to 131. The members of [seen] that are not strings are those
    the state gave it on line 80. *)
Definition persist (state : pyval) (n_selected : nat) : M unit :=
  seen ← get_seen;
  let seen_list := truncate_seen (list_of_seen seen (foreign_of state)) in
  state ← lift (set_item state (lit "seen_ids") (PList seen_list));
  save_state w state;;
  print (lit "Posted " ++ lit (pretty n_selected) ++ lit " item(s).").

(** Lines 117 to 131: deliver the selected entries, then persist. *)
Definition post_batch (token chat_id source_title : str) (state : pyval)
    (to_post : list (str * entry)) : M unit :=
  deliver token chat_id source_title to_post;;
  persist state (length to_post).

Definition main : M unit :=
  let feed_url := environ_get_stripped (FEED_URL (w_environ w)) in
  let tg_token := environ_get_stripped (TELEGRAM_BOT_TOKEN (w_environ w)) in
  let tg_channel := environ_get_stripped (TELEGRAM_CHANNEL (w_environ w)) in
  if negb (str_truthy feed_url) || negb (str_truthy tg_token)
     || negb (str_truthy tg_channel)
  then raise (SystemExit
         (lit "Missing env vars: FEED_URL, TELEGRAM_BOT_TOKEN, TELEGRAM_CHANNEL"))
  else
    max_items ← lift (max_items_of (MAX_ITEMS (w_environ w)));
    state ← load_state_cmd;
    elements ← lift (seen_elements state);
    set_seen (string_members elements);;
    let feed := w_fetch w feed_url in
    let source_title := clean_text (default [] (feed_title feed)) in
    let entries := feed_entries feed in
    match entries with
    | [] => print (lit "No entries found in feed.")
    | _ =>
        let entries := sort_reverse entry_sort_key entries in
        seen ← get_seen;
        let to_post := select_loop seen max_items entries [] in
        match to_post with
        | [] => print (lit "No new items to post.")
        | _ =>
            let to_post := reverse to_post in
            post_batch tg_token tg_channel source_title state to_post
        end
    end.

End Run.

(** ** Words of the specification *)

(** The selector never takes fewer than one entry when one is new: the
    test of the cap comes after the append. *)
Definition cap (max_items : Z) : nat := Z.to_nat (Z.max 1 max_items).

(** The entries with an identifier outside [seen], each with its
    identifier, in the order of the list. *)
Definition unseen (seen : gset str) (entries : list entry) : list (str * entry) :=
  (fun e => (pick_entry_id e, e)) <$> filter (fun e => pick_entry_id e ∉ seen) entries.

(** The HTTP layer succeeded: there is a response and its status is not an
    error status. *)
Definition http_success (o : http_outcome) : bool :=
  match o with
  | NoResponse => false
  | Response status_code _ => negb ((400 <=? status_code) && (status_code <? 600))
  end.

(** The success flag of the application: the body decodes to a dictionary
    whose ["ok"] is true. *)
Definition success_flag (o : http_outcome) : bool :=
  match o with
  | Response _ (Some (PDict d)) => truthy (dict_get d (lit "ok"))
  | _ => false
  end.

(** The entries of a batch that get a message: those whose message is not
    empty. *)
Definition with_message (source_title : str) (to_post : list (str * entry))
    : list (str * entry) :=
  filter (fun p => str_truthy (build_message p.2 source_title) = true) to_post.

(** The effects of delivering a batch without failure: a request and a
    pause for each entry that gets a message. *)
Definition batch_events (token chat_id source_title : str)
    (to_post : list (str * entry)) : list event :=
  p ← with_message source_title to_post;
  [Post (sendMessage_url token) chat_id (build_message p.2 source_title); Sleep 1].

(** The list a document holds under ["seen_ids"]. *)
Definition seen_ids (doc : pyval) : option (list pyval) :=
  match doc with
  | PDict d =>
      match dict_lookup d (lit "seen_ids") with
      | Some (PList l) => Some l
      | _ => None
      end
  | _ => None
  end.

(** A written document obeys the bound of the state store. *)
Definition bounded_doc (doc : pyval) : Prop :=
  ∃ l, seen_ids doc = Some l ∧ (length l ≤ 1000)%nat ∧ NoDup l.

Definition bounded_event (ev : event) : Prop :=
  match ev with
  | WriteState doc => bounded_doc doc
  | _ => True
  end.

(** Newest first: keys never grow along the list. *)
Definition descending {A} (key : A -> Z) : relation A := fun a b => key b ≤ key a.

(** Oldest first. *)
Definition ascending {A} (key : A -> Z) : relation A := fun a b => key a ≤ key b.

(** The state after a request to Telegram that carried [text]. *)
Definition attempted (token chat_id text : str) (st : run_state) : run_state :=
  {| mem_seen := mem_seen st; disk := disk st; requests := S (requests st);
     trace := trace st ++ [Post (sendMessage_url token) chat_id text] |}.

(** The state after a delivery of [text] for the entry [eid]: the request,
    the identifier added to [seen], the pause. *)
Definition delivered (token chat_id text eid : str) (st : run_state) : run_state :=
  {| mem_seen := {[eid]} ∪ mem_seen st; disk := disk st;
     requests := S (requests st);
     trace := (trace st ++ [Post (sendMessage_url token) chat_id text]) ++ [Sleep 1] |}.

(** An event other than a write of the state file. *)
Definition not_a_write (ev : event) : Prop :=
  match ev with
  | WriteState _ => False
  | _ => True
  end.

(** The three required settings are there. *)
Definition valid_config (env : environ) : bool :=
  str_truthy (environ_get_stripped (FEED_URL env))
  && str_truthy (environ_get_stripped (TELEGRAM_BOT_TOKEN env))
  && str_truthy (environ_get_stripped (TELEGRAM_CHANNEL env)).

(** The document [load_state] gives for a file. *)
Definition loaded (f : file_state) : pyval :=
  match load_state f with
  | Ok doc => doc
  | Raise _ => empty_doc
  end.

(** Lines 79 and 80 return: the state loads and a set can be made of what
    it holds under ["seen_ids"]. *)
Definition usable (f : file_state) : bool :=
  match load_state f with
  | Ok state =>
      match seen_elements state with
      | Ok _ => true
      | Raise _ => false
      end
  | Raise _ => false
  end.

(** The identifiers a file lists: the strings of the set [seen] at the
    start of a run. *)
Definition seen_of (f : file_state) : gset str :=
  match seen_elements (loaded f) with
  | Ok l => string_members l
  | Raise _ => ∅
  end.

(** The state of a run once [seen] is built from the file. *)
Definition started (f : file_state) : run_state :=
  {| mem_seen := seen_of f; disk := f; requests := O; trace := [] |}.

(** The list [persist] puts under ["seen_ids"]. *)
Definition written_ids (set_to_list : gset (str + nat) -> list (str + nat))
    (state : pyval) (st : run_state) : list pyval :=
  truncate_seen (list_of_seen set_to_list (mem_seen st) (foreign_of state)).

(** ** Sample data *)

Module Sample.

(** A clock for the examples: [mktime] in UTC, from the year, the day of
    the year and the time of day. *)
Definition mktime (t : struct_time) : Z :=
  let y := tm_year t in
  let days := 365 * (y - 1970) + (y - 1969) / 4 - (y - 1901) / 100
              + (y - 1601) / 400 + (tm_yday t - 1) in
  86400 * days + 3600 * tm_hour t + 60 * tm_min t + tm_sec t.

Definition at_second (s : Z) : struct_time :=
  {| tm_year := 1970; tm_mon := 1; tm_mday := 1;
     tm_hour := 0; tm_min := 0; tm_sec := s;
     tm_wday := 3; tm_yday := 1; tm_isdst := 0 |}.

Definition item (id title : string) (published : Z) : entry :=
  {| e_id := Some (lit id); e_guid := None; e_link := None;
     e_title := Some (lit title); e_published := None;
     e_summary := None; e_description := None;
     e_published_parsed := Some (at_second published);
     e_updated_parsed := None |}.

Definition first := item "a" "First" 10.
Definition second := item "b" "Second" 20.
Definition third := item "c" "Third" 30.

(** An entry with nothing to show. *)
Definition blank : entry :=
  {| e_id := Some (lit "x"); e_guid := None; e_link := Some [];
     e_title := None; e_published := None;
     e_summary := Some []; e_description := None;
     e_published_parsed := None; e_updated_parsed := None |}.

(** Two entries without id, guid and link, with the same title and the
    same publication text, and different summaries. *)
Definition twin (summary : string) : entry :=
  {| e_id := Some []; e_guid := None; e_link := Some [];
     e_title := Some (lit "News"); e_published := Some (lit "Mon");
     e_summary := Some (lit summary); e_description := None;
     e_published_parsed := None; e_updated_parsed := None |}.

(** An entry whose summary has 300 characters. *)
Definition long_summary : entry :=
  {| e_id := Some (lit "l"); e_guid := None; e_link := None;
     e_title := None; e_published := None;
     e_summary := Some (replicate 300 97%N); e_description := None;
     e_published_parsed := None; e_updated_parsed := None |}.

Definition accepted : http_outcome :=
  Response 200 (Some (PDict [(lit "ok", PBool true)])).

Definition refused : http_outcome := Response 500 None.

Definition settings (max_items : option (option Z)) : environ :=
  {| FEED_URL := Some (lit "https://example.org/feed");
     TELEGRAM_BOT_TOKEN := Some (lit "T");
     TELEGRAM_CHANNEL := Some (lit "@c");
     MAX_ITEMS := max_items |}.

(** A feed of three entries; every request is accepted. *)
Definition calm : world :=
  {| w_environ := settings None;
     w_fetch := fun _ => {| feed_title := Some (lit "Feed");
                            feed_entries := [second; third; first] |};
     w_reply := fun _ => accepted;
     w_save := fun _ => Saved |}.

(** The same feed; the second request is refused. *)
Definition stormy : world :=
  {| w_environ := settings None;
     w_fetch := w_fetch calm;
     w_reply := fun n => match n with 1%nat => refused | _ => accepted end;
     w_save := fun _ => Saved |}.

(** The same feed with [MAX_ITEMS=0]. *)
Definition capped_at_zero : world :=
  {| w_environ := settings (Some (Some 0));
     w_fetch := w_fetch calm;
     w_reply := fun _ => accepted;
     w_save := fun _ => Saved |}.

End Sample.

(** ** More words for the properties *)

(** A string made of white space only. *)
Definition blank_text (s : str) : Prop := Forall (fun c => is_space c = true) s.

(** A string with a character that is not white space. *)
Definition inked (s : str) : Prop := Exists (fun c => is_space c = false) s.

(** A string that neither starts nor ends with white space. *)
Definition trimmed (s : str) : Prop :=
  (∀ c, head s = Some c → is_space c = false)
  ∧ (∀ c, last s = Some c → is_space c = false).

(** A string without line feed and carriage return. *)
Definition one_line (s : str) : Prop := Forall (fun c => c ≠ LF ∧ c ≠ CR) s.

(** Lines 79 and 80: the state is loaded and the elements of its set are
    taken. *)
Definition read_seen (f : file_state) : res (list pyval) :=
  load_state f ≫= seen_elements.

(** The list [persist] puts under ["seen_ids"] for a set of these strings. *)
Definition ids_to_write (set_to_list : gset (str + nat) -> list (str + nat))
    (state : pyval) (seen : gset str) : list pyval :=
  truncate_seen (list_of_seen set_to_list seen (foreign_of state)).

(** A request goes to the [sendMessage] address of the bot, for the
    configured channel, with a text that is not empty; other events are not
    concerned. *)
Definition addressed (token chat_id : str) (ev : event) : Prop :=
  match ev with
  | Post url chat text => url = sendMessage_url token ∧ chat = chat_id ∧ text ≠ []
  | _ => True
  end.

(** The line [main] prints when it has nothing to post. *)
Definition nothing_to_post (entries : list entry) : str :=
  match entries with
  | [] => lit "No entries found in feed."
  | _ => lit "No new items to post."
  end.

(** The line [main] prints after a batch. *)
Definition posted_line (n : nat) : str :=
  lit "Posted " ++ lit (pretty n) ++ lit " item(s).".

(** The message of the [SystemExit] of line 75. *)
Definition missing_env_vars : str :=
  lit "Missing env vars: FEED_URL, TELEGRAM_BOT_TOKEN, TELEGRAM_CHANNEL".

Module Scene.

(** The document of a state file that lists these identifiers and carries
    a note. *)
Definition listing (ids : list string) : pyval :=
  PDict [(lit "seen_ids", PList ((fun id => PStr (lit id)) <$> ids));
         (lit "note", PStr (lit "keep"))].

(** A state file that lists the three sample entries and carries a note. *)
Definition all_seen : file_state := Holds (Json (listing ["a"; "b"; "c"])).

(** A state file that lists the oldest sample entry and carries a note. *)
Definition first_seen : file_state := Holds (Json (listing ["a"])).

(** A state file whose JSON is a list. *)
Definition not_a_dict : file_state := Holds (Json (PList [])).

(** The calm world with a bot token of white space only. *)
Definition no_token : world :=
  {| w_environ :=
       {| FEED_URL := Some (lit "https://example.org/feed");
          TELEGRAM_BOT_TOKEN := Some (lit "   ");
          TELEGRAM_CHANNEL := Some (lit "@c");
          MAX_ITEMS := None |};
     w_fetch := w_fetch Sample.calm;
     w_reply := w_reply Sample.calm;
     w_save := w_save Sample.calm |}.

(** The calm world with [MAX_ITEMS=2]. *)
Definition two_at_most : world :=
  {| w_environ := Sample.settings (Some (Some 2));
     w_fetch := w_fetch Sample.calm;
     w_reply := w_reply Sample.calm;
     w_save := w_save Sample.calm |}.

(** The calm world on a disk that takes no write. *)
Definition read_only : world :=
  {| w_environ := w_environ Sample.calm;
     w_fetch := w_fetch Sample.calm;
     w_reply := w_reply Sample.calm;
     w_save := fun _ => NotSaved OSError false |}.

End Scene.

(** * Properties *)

(** ** Strings *)

Lemma lstrip_length (s : str) : (length (lstrip s) ≤ length s)%nat.
Proof.
  induction s as [|c t IH]; simpl; [lia|].
  destruct (is_space c); simpl; lia.
Qed.

Lemma rstrip_length (s : str) : (length (rstrip s) ≤ length s)%nat.
Proof.
  unfold rstrip. rewrite length_reverse.
  etrans; [apply lstrip_length|]. by rewrite length_reverse.
Qed.

Lemma lstrip_keeps (c : N) (t : str) : is_space c = false → lstrip (c :: t) = c :: t.
Proof. intros H. simpl. by rewrite H. Qed.

Lemma rstrip_keeps (s : str) (c : N) : is_space c = false → rstrip (s ++ [c]) = s ++ [c].
Proof.
  intros H. unfold rstrip. rewrite reverse_app. simpl.
  change (reverse [c]) with [c]. simpl. rewrite H.
  rewrite reverse_cons, reverse_involutive. done.
Qed.

Lemma strip_keeps (a b : N) (s : str) :
  is_space a = false → is_space b = false →
  strip (a :: s ++ [b]) = a :: s ++ [b].
Proof.
  intros Ha Hb. unfold strip.
  change (a :: s ++ [b]) with ((a :: s) ++ [b]).
  rewrite (rstrip_keeps (a :: s) b Hb). by apply lstrip_keeps.
Qed.

Lemma strip_nil : strip [] = [].
Proof. reflexivity. Qed.

Lemma replace_double_space_length (s : str) :
  (length (replace_double_space s) ≤ length s)%nat
  ∧ (has_double_space s = true → length (replace_double_space s) < length s)%nat.
Proof.
  assert (G : ∀ n (s : str), (length s ≤ n)%nat →
    (length (replace_double_space s) ≤ length s)%nat
    ∧ (has_double_space s = true → length (replace_double_space s) < length s)%nat).
  { clear s. induction n as [|n IH]; intros s Hn.
    - destruct s; simpl in *; [split; [lia|done]|lia].
    - destruct s as [|a [|b u]]; simpl in *; [split; [lia|done]|split; [lia|done]|].
      destruct ((a =? SPACE)%N && (b =? SPACE)%N) eqn:E; simpl.
      + destruct (IH u) as [H1 _]; [lia|]. split; intros; lia.
      + destruct (IH (b :: u)) as [H1 H2]; [simpl; lia|]. simpl in *.
        split; [lia|]. intros H. specialize (H2 H). lia. }
  apply (G (length s)). lia.
Qed.

Lemma collapse_spaces_enough (fuel : nat) (s : str) :
  (length s ≤ fuel)%nat → has_double_space (collapse_spaces fuel s) = false.
Proof.
  revert s. induction fuel as [|fuel IH]; intros s Hs.
  - destruct s; [done|simpl in Hs; lia].
  - simpl. destruct (has_double_space s) eqn:E; [|done].
    apply IH. destruct (replace_double_space_length s) as [_ H].
    specialize (H E). lia.
Qed.

Lemma clean_text_nil : clean_text [] = [].
Proof. reflexivity. Qed.

(** ** Message builder *)

Lemma truncate_summary_length (s : str) : (length (truncate_summary s) ≤ 280)%nat.
Proof.
  unfold truncate_summary. destruct (280 <? length s)%nat eqn:E.
  - rewrite length_app. pose proof (rstrip_length (take 277 s)) as H.
    rewrite length_take in H. change (length (lit "...")) with 3%nat. lia.
  - apply Nat.ltb_ge in E. lia.
Qed.

Lemma message_parts_source_only (source_title : str) :
  message_parts [] [] [] source_title =
    if str_truthy source_title then [lit "(" ++ source_title ++ lit ")"] else [].
Proof. reflexivity. Qed.

Lemma build_message_blank (e : entry) (source_title : str) :
  getattr_str (e_title e) = [] →
  getattr_str (e_summary e) = [] →
  getattr_str (e_description e) = [] →
  getattr_str (e_link e) = [] →
  build_message e source_title =
    strip (join [LF; LF] (message_parts [] [] [] source_title)).
Proof.
  intros Ht Hs Hd Hl. unfold build_message, summary_segment, raw_summary.
  rewrite Ht, Hs, Hd, Hl. reflexivity.
Qed.

Lemma deliver_skip (w : world) (token chat_id source_title eid : str)
    (e : entry) (rest : list (str * entry)) :
  build_message e source_title = [] →
  deliver w token chat_id source_title ((eid, e) :: rest) =
    deliver w token chat_id source_title rest.
Proof. intros H. simpl. by rewrite H. Qed.

(** C7. An entry whose title, summary, description and link are all empty
    is rendered as the source title in parentheses when there is a source
    title, and as the empty string when there is none; in the second case
    the delivery loop passes over the entry: the run goes on as if the entry
    were not in the batch, no request is made for it and [seen] is left as
    it was. *)
Theorem blank_entry_is_skipped (e : entry) :
  getattr_str (e_title e) = [] →
  getattr_str (e_summary e) = [] →
  getattr_str (e_description e) = [] →
  getattr_str (e_link e) = [] →
  (∀ source_title : str, source_title ≠ [] →
     build_message e source_title = lit "(" ++ source_title ++ lit ")")
  ∧ build_message e [] = []
  ∧ (∀ w token chat_id eid rest,
       deliver w token chat_id [] ((eid, e) :: rest) = deliver w token chat_id [] rest)
  ∧ (∀ w token chat_id eid st,
       deliver w token chat_id [] [(eid, e)] st = (Ok tt, st)).
Proof.
  intros Ht Hs Hd Hl.
  assert (Hnil : build_message e [] = []).
  { by rewrite build_message_blank. }
  split_and!.
  - intros source_title Hne. rewrite build_message_blank by done.
    rewrite message_parts_source_only.
    destruct source_title as [|c t]; [done|].
    change (strip (40%N :: (c :: t) ++ [41%N]) = 40%N :: (c :: t) ++ [41%N]).
    by apply strip_keeps.
  - done.
  - intros. by apply deliver_skip.
  - intros. by rewrite deliver_skip.
Qed.

Lemma blank_sample_is_skipped :
  (∀ source_title : str, source_title ≠ [] →
     build_message Sample.blank source_title = lit "(" ++ source_title ++ lit ")")
  ∧ build_message Sample.blank [] = []
  ∧ (∀ w token chat_id eid rest,
       deliver w token chat_id [] ((eid, Sample.blank) :: rest)
       = deliver w token chat_id [] rest)
  ∧ (∀ w token chat_id eid st,
       deliver w token chat_id [] [(eid, Sample.blank)] st = (Ok tt, st)).
Proof.
  apply (blank_entry_is_skipped Sample.blank); reflexivity.
Defined.

(** A summary of 300 characters is cut to 277 and three dots. *)
Example long_summary_is_cut :
  summary_segment Sample.long_summary = replicate 277 97%N ++ lit "..."
  ∧ length (summary_segment Sample.long_summary) = 280%nat
  ∧ build_message Sample.long_summary [] = replicate 277 97%N ++ lit "...".
Proof. split_and!; vm_compute; reflexivity. Qed.

Example clean_text_sample :
  clean_text (lit "  two   words  ") = lit "two words".
Proof. vm_compute. reflexivity. Qed.

(** ** Entry identifier *)

Lemma attr_or_getattr (a : option str) (rest : str) :
  attr_or a rest = if str_truthy (getattr_str a) then getattr_str a else rest.
Proof. destruct a as [s|]; [|done]. simpl. by destruct s. Qed.

(** C10. The identifier of an entry is its id unless that is absent or the
    empty string, then its guid, then its link, under the same condition,
    and at last its title, a bar and its publication text. So two entries
    without id, guid and link, with the same title and the same publication
    text, get the same identifier. *)
Theorem pick_entry_id_falls_through :
  (∀ e : entry,
     pick_entry_id e =
       if str_truthy (getattr_str (e_id e)) then getattr_str (e_id e)
       else if str_truthy (getattr_str (e_guid e)) then getattr_str (e_guid e)
       else if str_truthy (getattr_str (e_link e)) then getattr_str (e_link e)
       else getattr_str (e_title e) ++ lit "|" ++ getattr_str (e_published e))
  ∧ (∀ e1 e2 : entry,
       getattr_str (e_id e1) = [] → getattr_str (e_guid e1) = [] →
       getattr_str (e_link e1) = [] →
       getattr_str (e_id e2) = [] → getattr_str (e_guid e2) = [] →
       getattr_str (e_link e2) = [] →
       getattr_str (e_title e1) = getattr_str (e_title e2) →
       getattr_str (e_published e1) = getattr_str (e_published e2) →
       pick_entry_id e1 = pick_entry_id e2).
Proof.
  assert (H : ∀ e : entry,
     pick_entry_id e =
       if str_truthy (getattr_str (e_id e)) then getattr_str (e_id e)
       else if str_truthy (getattr_str (e_guid e)) then getattr_str (e_guid e)
       else if str_truthy (getattr_str (e_link e)) then getattr_str (e_link e)
       else getattr_str (e_title e) ++ lit "|" ++ getattr_str (e_published e)).
  { intros e. unfold pick_entry_id. by rewrite !attr_or_getattr. }
  split; [exact H|].
  intros e1 e2 Hi1 Hg1 Hl1 Hi2 Hg2 Hl2 Ht Hp.
  rewrite (H e1), (H e2), Hi1, Hg1, Hl1, Hi2, Hg2, Hl2, Ht, Hp. done.
Qed.

Lemma twins_collide :
  Sample.twin "morning" ≠ Sample.twin "evening"
  ∧ pick_entry_id (Sample.twin "morning") = pick_entry_id (Sample.twin "evening").
Proof.
  split; [discriminate|].
  apply (proj2 pick_entry_id_falls_through); reflexivity.
Defined.

(** ** State store *)

(** C8. [load_state] gives the empty document when the file is missing,
    cannot be read or does not hold JSON, and the document of the file
    otherwise; but when [.state] cannot be searched, the test of line 13,
    which stands outside the [try], raises, and [load_state] with it. *)
Theorem load_state_raises_unsearchable :
  load_state Unsearchable = Raise PermissionError
  ∧ (∀ f, f ≠ Unsearchable → ∃ doc, load_state f = Ok doc)
  ∧ load_state Missing = Ok empty_doc
  ∧ load_state Unreadable = Ok empty_doc
  ∧ load_state (Holds NotJson) = Ok empty_doc
  ∧ (∀ doc, load_state (Holds (Json doc)) = Ok doc).
Proof.
  split_and!; try reflexivity.
  intros [| | |[|doc]] Hf; [by eexists|done|by eexists..].
Qed.

(** ** Delivery client *)

Lemma check_reply_ok (o : http_outcome) :
  check_reply o = Ok tt ↔ http_success o = true ∧ success_flag o = true.
Proof.
  destruct o as [|c body]; simpl; [intuition discriminate|].
  unfold raise_for_status.
  destruct ((400 <=? c) && (c <? 600)); simpl; [intuition discriminate|].
  destruct body as [[| | | | | |d]|]; simpl; try (intuition discriminate).
  destruct (truthy (dict_get d (lit "ok"))); simpl; intuition discriminate.
Qed.

Lemma raises_iff_not_ok (r : res unit) : (∃ e, r = Raise e) ↔ r ≠ Ok tt.
Proof.
  destruct r as [[]|e]; split; try done.
  - by intros [e H].
  - intros _. by exists e.
Qed.

(** C9. Sending raises exactly when the HTTP layer did not succeed, or it
    did and the success flag of the decoded body is not true; when the HTTP
    layer succeeded and the flag is true, sending returns. *)
Theorem send_raises_iff (w : world) (token chat_id text : str) (st : run_state) :
  let o := w_reply w (requests st) in
  let r := (telegram_send_message w token chat_id text st).1 in
  ((∃ e, r = Raise e) ↔
     http_success o = false ∨ (http_success o = true ∧ success_flag o = false))
  ∧ (http_success o = true ∧ success_flag o = true ↔ r = Ok tt).
Proof.
  simpl. split; [|symmetry; apply check_reply_ok].
  rewrite raises_iff_not_ok, check_reply_ok.
  destruct (http_success _), (success_flag _); intuition congruence.
Qed.

(** ** Sorting *)

Section Sorting.
Context {A : Type} (key : A → Z).

Lemma insert_desc_Permutation (x : A) (l : list A) : insert_desc key x l ≡ₚ x :: l.
Proof.
  induction l as [|y t IH]; simpl; [done|].
  destruct (key x <? key y); [|done].
  rewrite IH. apply Permutation_swap.
Qed.

Lemma sort_reverse_Permutation (l : list A) : sort_reverse key l ≡ₚ l.
Proof.
  induction l as [|x t IH]; simpl; [done|].
  by rewrite insert_desc_Permutation, IH.
Qed.

Lemma insert_desc_sorted (x : A) (l : list A) :
  StronglySorted (descending key) l → StronglySorted (descending key) (insert_desc key x l).
Proof.
  induction l as [|y t IH]; simpl; intros Hs.
  - repeat constructor.
  - apply StronglySorted_cons in Hs as [Hy Ht].
    destruct (key x <? key y) eqn:E.
    + apply Z.ltb_lt in E. apply StronglySorted_cons. split; [|by apply IH].
      rewrite insert_desc_Permutation. constructor; [unfold descending; lia|done].
    + apply Z.ltb_ge in E. apply StronglySorted_cons. split.
      * constructor; [done|].
        eapply Forall_impl; [exact Hy|]. unfold descending. intros; lia.
      * by apply StronglySorted_cons.
Qed.

Lemma sort_reverse_sorted (l : list A) : StronglySorted (descending key) (sort_reverse key l).
Proof.
  induction l as [|x t IH]; simpl; [constructor|]. by apply insert_desc_sorted.
Qed.

Lemma insert_desc_stable (k : Z) (x : A) (l : list A) :
  filter (fun a => key a = k) (insert_desc key x l) = filter (fun a => key a = k) (x :: l).
Proof.
  induction l as [|y t IH]; simpl; [done|].
  destruct (key x <? key y) eqn:E; [|done].
  apply Z.ltb_lt in E. rewrite (filter_cons _ y), IH, !filter_cons.
  repeat case_decide; try done; lia.
Qed.

Lemma sort_reverse_stable (k : Z) (l : list A) :
  filter (fun a => key a = k) (sort_reverse key l) = filter (fun a => key a = k) l.
Proof.
  induction l as [|x t IH]; simpl; [done|].
  by rewrite insert_desc_stable, !filter_cons, IH.
Qed.

(** A descending list is determined by its entries of each key, taken in
    order: there is one stable descending sort. *)
Lemma stable_descending_unique (l1 l2 : list A) :
  StronglySorted (descending key) l1 → StronglySorted (descending key) l2 →
  (∀ k, filter (fun a => key a = k) l1 = filter (fun a => key a = k) l2) →
  l1 = l2.
Proof.
  revert l2. induction l1 as [|a t1 IH]; intros l2 H1 H2 Hf.
  - destruct l2 as [|b t2]; [done|].
    specialize (Hf (key b)). rewrite filter_cons_True in Hf by done. done.
  - destruct l2 as [|b t2].
    { specialize (Hf (key a)). rewrite filter_cons_True in Hf by done. done. }
    apply StronglySorted_cons in H1 as [Ha H1], H2 as [Hb H2].
    assert (Hab : key a = key b).
    { apply Z.le_antisymm.
      - assert (Hin : a ∈ b :: t2).
        { pose proof (Hf (key a)) as Hk. rewrite filter_cons_True in Hk by done.
          assert (a ∈ filter (fun x => key x = key a) (b :: t2)) as Hin
            by (rewrite <- Hk; left).
          by apply list_elem_of_filter in Hin as [_ ?]. }
        apply elem_of_cons in Hin as [->|Hin]; [done|].
        rewrite Forall_forall in Hb. by apply Hb.
      - assert (Hin : b ∈ a :: t1).
        { pose proof (Hf (key b)) as Hk. rewrite (filter_cons_True _ b) in Hk by done.
          assert (b ∈ filter (fun x => key x = key b) (a :: t1)) as Hin
            by (rewrite Hk; left).
          by apply list_elem_of_filter in Hin as [_ ?]. }
        apply elem_of_cons in Hin as [->|Hin]; [done|].
        rewrite Forall_forall in Ha. by apply Ha. }
    pose proof (Hf (key a)) as Hk.
    rewrite filter_cons_True in Hk by done.
    rewrite (filter_cons_True _ b) in Hk by done.
    injection Hk as -> Hk. f_equal. apply IH; [done..|].
    intros k. specialize (Hf k). rewrite !filter_cons in Hf.
    case_decide; [by injection Hf|done].
Qed.

Lemma StronglySorted_sublist (R : relation A) (l1 l2 : list A) :
  l1 `sublist_of` l2 → StronglySorted R l2 → StronglySorted R l1.
Proof.
  induction 1 as [|x l1 l2 Hsub IH|x l1 l2 Hsub IH]; intros Hs; [done|..].
  - apply StronglySorted_cons in Hs as [Hx Hs].
    apply StronglySorted_cons. split; [|by apply IH].
    rewrite Forall_forall in *. intros y Hy. apply Hx.
    by eapply elem_of_sublist.
  - apply StronglySorted_cons in Hs as [_ Hs]. by apply IH.
Qed.

Lemma StronglySorted_reverse (l : list A) :
  StronglySorted (descending key) l → StronglySorted (ascending key) (reverse l).
Proof.
  induction l as [|x t IH]; intros Hs; [constructor|].
  apply StronglySorted_cons in Hs as [Hx Hs].
  rewrite reverse_cons. apply StronglySorted_app. split_and!.
  - intros a b Ha Hb. apply list_elem_of_singleton in Hb as ->.
    rewrite elem_of_reverse in Ha. rewrite Forall_forall in Hx. exact (Hx a Ha).
  - by apply IH.
  - repeat constructor.
Qed.

End Sorting.

(** Entries of one key keep the order of the feed. *)
Example sort_reverse_keeps_ties :
  sort_reverse (entry_sort_key Sample.mktime)
    [Sample.item "a" "A" 10; Sample.item "b" "B" 20;
     Sample.item "c" "C" 10; Sample.item "d" "D" 20]
  = [Sample.item "b" "B" 20; Sample.item "d" "D" 20;
     Sample.item "a" "A" 10; Sample.item "c" "C" 10].
Proof. vm_compute. reflexivity. Qed.

(** ** Selection *)

Lemma cap_pos (max_items : Z) : (0 < cap max_items)%nat.
Proof. unfold cap. lia. Qed.

Lemma unseen_cons (seen : gset str) (e : entry) (l : list entry) :
  unseen seen (e :: l) =
    if decide (pick_entry_id e ∈ seen) then unseen seen l
    else (pick_entry_id e, e) :: unseen seen l.
Proof.
  unfold unseen. rewrite filter_cons.
  destruct (decide (pick_entry_id e ∈ seen)).
  - by rewrite decide_False by (intros H; by apply H).
  - by rewrite decide_True by done.
Qed.

Lemma unseen_entries (seen : gset str) (l : list entry) :
  (unseen seen l).*2 = filter (fun e => pick_entry_id e ∉ seen) l.
Proof.
  unfold unseen. rewrite <- list_fmap_compose. apply list_fmap_id.
Qed.

(** The loop takes the entries that are new, in order, until it holds
    [cap max_items] of them. *)
Lemma select_loop_spec (seen : gset str) (max_items : Z)
    (l : list entry) (acc : list (str * entry)) :
  (length acc < cap max_items)%nat →
  select_loop seen max_items l acc =
    acc ++ take (cap max_items - length acc) (unseen seen l).
Proof.
  revert acc. induction l as [|e rest IH]; intros acc Hacc.
  - simpl. unfold unseen. simpl. by rewrite take_nil, app_nil_r.
  - simpl. rewrite unseen_cons.
    destruct (decide (pick_entry_id e ∈ seen)); [by apply IH|].
    rewrite length_app. simpl.
    destruct (Z.of_nat (length acc + 1) >=? max_items) eqn:E.
    + apply Z.geb_le in E.
      replace (cap max_items - length acc)%nat with 1%nat by (unfold cap in *; lia).
      simpl. by rewrite take_0.
    + rewrite Z.geb_leb in E. apply Z.leb_gt in E.
      rewrite IH by (rewrite length_app; simpl; unfold cap in *; lia).
      rewrite length_app. simpl. rewrite <- app_assoc. simpl.
      replace (cap max_items - length acc)%nat
        with (S (cap max_items - (length acc + 1)))%nat by (unfold cap in *; lia).
      done.
Qed.

Section Selector.
Variable mktime : struct_time → Z.

Lemma selector_spec (entries : list entry) (seen : gset str) (max_items : Z) :
  selector mktime entries seen max_items =
    reverse (take (cap max_items)
               (unseen seen (sort_reverse (entry_sort_key mktime) entries))).
Proof.
  unfold selector. rewrite select_loop_spec by apply cap_pos.
  simpl. by rewrite Nat.sub_0_r.
Qed.

Lemma selector_length (entries : list entry) (seen : gset str) (max_items : Z) :
  (length (selector mktime entries seen max_items) ≤ cap max_items)%nat.
Proof.
  rewrite selector_spec, length_reverse, length_take. lia.
Qed.

(** With a cap of at least one the selector keeps to it. *)
Lemma selector_length_positive_cap (entries : list entry) (seen : gset str)
    (max_items : Z) :
  1 ≤ max_items →
  Z.of_nat (length (selector mktime entries seen max_items)) ≤ max_items.
Proof.
  intros H. pose proof (selector_length entries seen max_items).
  unfold cap in *. lia.
Qed.

(** C1. An entry whose identifier is in [seen] when the selection starts is
    not among the selected entries, whatever its place in the feed and its
    timestamps. *)
Theorem selector_skips_seen (entries : list entry) (seen : gset str)
    (max_items : Z) (e : entry) :
  pick_entry_id e ∈ seen →
  e ∉ (selector mktime entries seen max_items).*2.
Proof.
  intros Hseen Hin. rewrite selector_spec in Hin.
  rewrite fmap_reverse, elem_of_reverse, fmap_take in Hin.
  eapply elem_of_sublist in Hin; [|apply sublist_take].
  rewrite unseen_entries in Hin.
  apply list_elem_of_filter in Hin as [Hnew _]. by apply Hnew.
Qed.

(** C3. The selector returns, in reverse, the first new entries (as many as
    the cap lets through) of the list sorted by [entry_sort_key]; that list
    holds the entries of the feed, newest first, the entries of one key in
    the order of the feed; the key is the time of [published_parsed], or
    else of [updated_parsed], or else zero; the selected entries come
    oldest first. *)
Theorem selector_oldest_first (entries : list entry) (seen : gset str)
    (max_items : Z) :
  let key := entry_sort_key mktime in
  let sorted := sort_reverse key entries in
  selector mktime entries seen max_items =
    reverse (take (cap max_items) (unseen seen sorted))
  ∧ sorted ≡ₚ entries
  ∧ StronglySorted (descending key) sorted
  ∧ (∀ k, filter (fun e => key e = k) sorted = filter (fun e => key e = k) entries)
  ∧ StronglySorted (ascending key) (selector mktime entries seen max_items).*2
  ∧ (∀ e, key e =
       match e_published_parsed e, e_updated_parsed e with
       | Some t, _ => mktime t
       | None, Some t => mktime t
       | None, None => 0
       end).
Proof.
  intros key sorted. split_and!.
  - apply selector_spec.
  - apply sort_reverse_Permutation.
  - apply sort_reverse_sorted.
  - intros k. apply sort_reverse_stable.
  - rewrite selector_spec, fmap_reverse. apply StronglySorted_reverse.
    rewrite fmap_take, unseen_entries.
    eapply StronglySorted_sublist; [|apply sort_reverse_sorted].
    etrans; [apply sublist_take|]. apply sublist_filter.
  - intros e. unfold key, entry_sort_key.
    by destruct (e_published_parsed e), (e_updated_parsed e).
Qed.

End Selector.

Lemma seen_second_is_not_selected :
  pick_entry_id Sample.second ∈ ({[lit "b"]} : gset str)
  ∧ Sample.second ∉
      (selector Sample.mktime [Sample.second; Sample.third; Sample.first]
         {[lit "b"]} 5).*2.
Proof.
  assert (H : pick_entry_id Sample.second ∈ ({[lit "b"]} : gset str)).
  { apply elem_of_singleton. reflexivity. }
  split; [exact H|].
  exact (selector_skips_seen Sample.mktime _ _ 5 Sample.second H).
Defined.

(** C2, at [MAX_ITEMS=0]: the selector returns one entry where the cap
    allows none, and the run posts it. *)
Theorem selector_exceeds_zero_cap :
  selector Sample.mktime [Sample.second; Sample.third; Sample.first] ∅ 0
    = [(lit "c", Sample.third)]
  ∧ ¬ (Z.of_nat (length
         (selector Sample.mktime [Sample.second; Sample.third; Sample.first] ∅ 0)) ≤ 0)
  ∧ requests (main Sample.mktime elements Sample.capped_at_zero (initial Missing)).2
    = 1%nat.
Proof.
  assert (H : selector Sample.mktime
                [Sample.second; Sample.third; Sample.first] ∅ 0
              = [(lit "c", Sample.third)]) by (vm_compute; reflexivity).
  split_and!; [exact H| |vm_compute; reflexivity].
  rewrite H. simpl. lia.
Qed.

(** ** Delivery loop *)

Section Delivery.
Variable w : world.
Variables token chat_id source_title : str.

Lemma deliver_cons_empty (eid : str) (e : entry) (rest : list (str * entry))
    (st : run_state) :
  str_truthy (build_message e source_title) = false →
  deliver w token chat_id source_title ((eid, e) :: rest) st =
    deliver w token chat_id source_title rest st.
Proof. intros H. simpl. by rewrite H. Qed.

Lemma deliver_cons_send (eid : str) (e : entry) (rest : list (str * entry))
    (st : run_state) :
  str_truthy (build_message e source_title) = true →
  deliver w token chat_id source_title ((eid, e) :: rest) st =
    match check_reply (w_reply w (requests st)) with
    | Ok _ =>
        deliver w token chat_id source_title rest
          (delivered token chat_id (build_message e source_title) eid st)
    | Raise x =>
        (Raise x, attempted token chat_id (build_message e source_title) st)
    end.
Proof.
  intros H. simpl. rewrite H. simpl.
  unfold mbind, M_bind, telegram_send_message.
  destruct (check_reply (w_reply w (requests st))); reflexivity.
Qed.

Lemma deliver_app (l1 l2 : list (str * entry)) (st : run_state) :
  deliver w token chat_id source_title (l1 ++ l2) st =
    match deliver w token chat_id source_title l1 st with
    | (Ok _, st1) => deliver w token chat_id source_title l2 st1
    | (Raise x, st1) => (Raise x, st1)
    end.
Proof.
  revert st. induction l1 as [|[eid e] rest IH]; intros st; [done|].
  rewrite <- app_comm_cons.
  destruct (str_truthy (build_message e source_title)) eqn:E.
  - rewrite !deliver_cons_send by done.
    destruct (check_reply (w_reply w (requests st))); [apply IH|done].
  - rewrite !deliver_cons_empty by done. apply IH.
Qed.

(** A batch delivered without failure: what it leaves. *)
Lemma deliver_ok (l : list (str * entry)) (st st1 : run_state) :
  deliver w token chat_id source_title l st = (Ok tt, st1) →
  mem_seen st1 = list_to_set (with_message source_title l).*1 ∪ mem_seen st
  ∧ disk st1 = disk st
  ∧ trace st1 = trace st ++ batch_events token chat_id source_title l.
Proof.
  revert st. induction l as [|[eid e] rest IH]; intros st H.
  - injection H as <-. split_and!; [set_solver|done|by rewrite app_nil_r].
  - unfold batch_events, with_message in *.
    destruct (str_truthy (build_message e source_title)) eqn:E.
    + rewrite deliver_cons_send in H by done.
      destruct (check_reply (w_reply w (requests st))); [|done].
      apply IH in H as (Hs & Hd & Ht).
      rewrite filter_cons_True by done. rewrite fmap_cons, bind_cons, list_to_set_cons.
      rewrite Hs, Hd, Ht. simpl. split_and!; [set_solver|done|].
      by rewrite <- !app_assoc.
    + rewrite deliver_cons_empty in H by done.
      rewrite filter_cons_False by (simpl; by rewrite E).
      by apply IH.
Qed.

(** Whatever its outcome, the loop leaves the state file alone and logs
    requests and pauses only. *)
Lemma deliver_keeps (P : event → Prop) (l : list (str * entry)) (st : run_state) :
  (∀ url chat text, P (Post url chat text)) → (∀ s, P (Sleep s)) →
  Forall P (trace st) →
  disk (deliver w token chat_id source_title l st).2 = disk st
  ∧ Forall P (trace (deliver w token chat_id source_title l st).2).
Proof.
  intros HPost HSleep. revert st. induction l as [|[eid e] rest IH]; intros st HP; [done|].
  destruct (str_truthy (build_message e source_title)) eqn:E.
  - rewrite deliver_cons_send by done.
    destruct (check_reply (w_reply w (requests st))).
    + destruct (IH (delivered token chat_id (build_message e source_title) eid st))
        as [Hd Ht]; [|done].
      simpl. rewrite !Forall_app. split_and!; [done|by repeat constructor..].
    + simpl. split; [done|]. rewrite Forall_app. split; [done|by repeat constructor].
  - rewrite deliver_cons_empty by done. by apply IH.
Qed.

End Delivery.

(** ** Persistence *)

Lemma truncate_seen_length {A} (l : list A) : (length (truncate_seen l) ≤ 1000)%nat.
Proof.
  unfold truncate_seen. destruct (1000 <? length l)%nat eqn:E.
  - apply Nat.ltb_lt in E. rewrite length_drop. lia.
  - apply Nat.ltb_ge in E. lia.
Qed.

Lemma truncate_seen_sublist {A} (l : list A) : truncate_seen l `sublist_of` l.
Proof.
  unfold truncate_seen. destruct (1000 <? length l)%nat; [apply sublist_drop|done].
Qed.

(** ** The members of the set that are not strings *)

Lemma distinct_by_key_spec (kept : list hkey) (l : list pyval) :
  NoDup (distinct_by_key kept l)
  ∧ (∀ v, v ∈ distinct_by_key kept l → ∃ k, foreign_key v = Some k ∧ k ∉ kept).
Proof.
  revert kept. induction l as [|v rest IH]; intros kept; simpl.
  - split; [constructor|]. by intros v ?%elem_of_nil.
  - destruct (foreign_key v) as [k|] eqn:Ek; [|apply IH].
    destruct (decide (k ∈ kept)) as [Hin|Hout]; [apply IH|].
    destruct (IH (k :: kept)) as [Hnd Hkeys]. split.
    + constructor; [|done]. intros Hv.
      destruct (Hkeys v Hv) as (k' & Hk' & Hnot).
      rewrite Ek in Hk'. injection Hk' as <-. apply Hnot. left.
    + intros v' [->|Hv']%elem_of_cons; [by exists k|].
      destruct (Hkeys v' Hv') as (k' & Hk' & Hnot).
      exists k'. split; [done|]. intros Hin. apply Hnot. by right.
Qed.

Lemma foreign_of_NoDup (state : pyval) : NoDup (foreign_of state).
Proof.
  unfold foreign_of. destruct (seen_elements state); [|constructor].
  apply distinct_by_key_spec.
Qed.

Lemma foreign_of_key (state : pyval) (v : pyval) :
  v ∈ foreign_of state → ∃ k, foreign_key v = Some k.
Proof.
  unfold foreign_of. destruct (seen_elements state) as [l|]; [|by intros ?%elem_of_nil].
  intros Hv. destruct (proj2 (distinct_by_key_spec [] l) v Hv) as (k & Hk & _).
  by exists k.
Qed.

Lemma member_value_inj (state : pyval) (x y : str + nat) (v : pyval) :
  member_value (foreign_of state) x = Some v →
  member_value (foreign_of state) y = Some v → x = y.
Proof.
  destruct x as [s|i], y as [t|j]; simpl.
  - by intros [= <-] [= ->].
  - intros [= <-] Hj. apply list_elem_of_lookup_2, foreign_of_key in Hj as [k Hk].
    done.
  - intros Hi [= <-]. apply list_elem_of_lookup_2, foreign_of_key in Hi as [k Hk].
    done.
  - intros Hi Hj. f_equal. exact (NoDup_lookup _ _ _ _ (foreign_of_NoDup state) Hi Hj).
Qed.

Lemma NoDup_omap_inj {A B} (f : A → option B) (l : list A) :
  (∀ x y v, f x = Some v → f y = Some v → x = y) →
  NoDup l → NoDup (omap f l).
Proof.
  intros Hinj. induction 1 as [|x l Hx Hl IH]; simpl; [constructor|].
  destruct (f x) as [v|] eqn:Ev; [|done].
  constructor; [|done]. intros Hin.
  apply list_elem_of_omap in Hin as (y & Hy & Hfy).
  by rewrite (Hinj x y v Ev Hfy) in Hx.
Qed.

Lemma dict_lookup_set (d : list (str * pyval)) (key : str) (v : pyval) :
  dict_lookup (dict_set d key v) key = Some v.
Proof.
  induction d as [|[k v'] rest IH]; simpl.
  - by rewrite decide_True.
  - destruct (decide (k = key)) as [->|Hne]; simpl.
    + by rewrite decide_True.
    + by rewrite decide_False.
Qed.

Section RunFacts.
Variable mktime : struct_time → Z.
Variable set_to_list : gset (str + nat) → list (str + nat).
Variable w : world.

(** The three ends of [persist]: no document to write (for a state that is
    not a dictionary, which does not get this far in a run), a write that
    fails, a write that is made and reported. *)
Lemma persist_run (state : pyval) (n : nat) (st : run_state) :
  persist set_to_list w state n st =
    match set_item state (lit "seen_ids") (PList (written_ids set_to_list state st)) with
    | Raise x => (Raise x, st)
    | Ok doc =>
        match w_save w doc with
        | Saved =>
            (Ok tt,
             {| mem_seen := mem_seen st; disk := Holds (Json doc);
                requests := requests st;
                trace := (trace st ++ [WriteState doc])
                         ++ [Print (lit "Posted " ++ lit (pretty n) ++ lit " item(s).")] |})
        | NotSaved x emptied =>
            (Raise x,
             {| mem_seen := mem_seen st;
                disk := if emptied then Holds NotJson else disk st;
                requests := requests st; trace := trace st |})
        end
    end.
Proof.
  unfold persist, written_ids. unfold mbind at 1, M_bind at 1, get_seen. simpl.
  unfold mbind at 1, M_bind at 1, lift.
  destruct (set_item _ _ _) as [doc|x]; [|done].
  unfold mbind at 1, M_bind at 1, save_state.
  destruct st as [seen dsk req tr]. simpl.
  by destruct (w_save w doc) as [|x emptied].
Qed.

Lemma post_batch_run (token chat_id source_title : str) (state : pyval)
    (to_post : list (str * entry)) (st : run_state) :
  post_batch set_to_list w token chat_id source_title state to_post st =
    match deliver w token chat_id source_title to_post st with
    | (Ok _, st1) => persist set_to_list w state (length to_post) st1
    | (Raise x, st1) => (Raise x, st1)
    end.
Proof. reflexivity. Qed.

Lemma usable_loads (f : file_state) :
  usable f = true →
  load_state f = Ok (loaded f)
  ∧ ∃ l, seen_elements (loaded f) = Ok l ∧ seen_of f = string_members l.
Proof.
  unfold usable, seen_of, loaded. destruct (load_state f) as [state|]; [|done].
  destruct (seen_elements state) as [l|]; [|done].
  intros _. split; [done|]. by exists l.
Qed.

Lemma reverse_eq_nil {A} (l : list A) : reverse l = [] → l = [].
Proof.
  intros H. apply (f_equal length) in H. rewrite length_reverse in H.
  by destruct l.
Qed.

(** A run with its settings in place: it reads the file, fetches the feed,
    and either reports that there is nothing to do or posts the batch the
    selector returns. *)
Lemma main_run (f : file_state) (m : Z) :
  valid_config (w_environ w) = true →
  max_items_of (MAX_ITEMS (w_environ w)) = Ok m →
  usable f = true →
  let feed := w_fetch w (environ_get_stripped (FEED_URL (w_environ w))) in
  main mktime set_to_list w (initial f) =
    match feed_entries feed with
    | [] => print (lit "No entries found in feed.") (started f)
    | _ =>
        match selector mktime (feed_entries feed) (seen_of f) m with
        | [] => print (lit "No new items to post.") (started f)
        | to_post =>
            post_batch set_to_list w
              (environ_get_stripped (TELEGRAM_BOT_TOKEN (w_environ w)))
              (environ_get_stripped (TELEGRAM_CHANNEL (w_environ w)))
              (clean_text (default [] (feed_title feed)))
              (loaded f) to_post (started f)
        end
    end.
Proof.
  intros Hcfg Hmax Hf feed. unfold valid_config in Hcfg.
  apply andb_true_iff in Hcfg as [[H1 H2]%andb_true_iff H3].
  destruct (usable_loads f Hf) as (Hload & l & Hl & Hseen).
  unfold main. rewrite H1, H2, H3. simpl.
  unfold mbind at 1, M_bind at 1, lift. rewrite Hmax.
  unfold mbind at 1, M_bind at 1, load_state_cmd. simpl.
  rewrite Hload.
  unfold mbind at 1, M_bind at 1. rewrite Hl.
  unfold mbind at 1, M_bind at 1, set_seen. simpl.
  fold feed. rewrite <- Hseen. fold (started f).
  destruct (feed_entries feed) as [|e0 es] eqn:Hes; [done|].
  unfold mbind at 1, M_bind at 1, get_seen. simpl.
  unfold selector.
  destruct (select_loop _ _ _ _) as [|p ps] eqn:Hsel; [done|].
  destruct (reverse (p :: ps)) eqn:Hrev; [by apply reverse_eq_nil in Hrev|].
  done.
Qed.

(** C4. In a run whose batch is delivered without failure up to an entry
    whose delivery fails, [main] ends there with the exception, so with a
    non-zero exit status; the failed request is the last effect and no later
    entry is sent; [seen] holds the identifiers read from the file and those
    of the entries delivered before, in memory only, and the identifiers of
    the failed entry and of the later ones are not added; the state file is
    as it was before the run. The run is one that gets as far as the
    delivery: its settings are there and its state loads. *)
Theorem failed_delivery_aborts (f : file_state) (m : Z)
    (pre post : list (str * entry)) (eid : str) (e : entry)
    (st1 : run_state) (x : exn) :
  let feed := w_fetch w (environ_get_stripped (FEED_URL (w_environ w))) in
  let token := environ_get_stripped (TELEGRAM_BOT_TOKEN (w_environ w)) in
  let chat_id := environ_get_stripped (TELEGRAM_CHANNEL (w_environ w)) in
  let source_title := clean_text (default [] (feed_title feed)) in
  let text := build_message e source_title in
  valid_config (w_environ w) = true →
  max_items_of (MAX_ITEMS (w_environ w)) = Ok m →
  usable f = true →
  selector mktime (feed_entries feed) (seen_of f) m = pre ++ (eid, e) :: post →
  deliver w token chat_id source_title pre (started f) = (Ok tt, st1) →
  str_truthy text = true →
  check_reply (w_reply w (requests st1)) = Raise x →
  let final := (main mktime set_to_list w (initial f)).2 in
  main mktime set_to_list w (initial f) = (Raise x, attempted token chat_id text st1)
  ∧ exit_status (main mktime set_to_list w (initial f)).1 = 1
  ∧ mem_seen final = list_to_set (with_message source_title pre).*1 ∪ seen_of f
  ∧ disk final = f
  ∧ trace final =
      batch_events token chat_id source_title pre
      ++ [Post (sendMessage_url token) chat_id text].
Proof.
  intros feed token chat_id source_title text Hcfg Hmax Hf Hsel Hpre Hmsg Hfail.
  assert (Hrun : main mktime set_to_list w (initial f)
                 = (Raise x, attempted token chat_id text st1)).
  { rewrite (main_run f m Hcfg Hmax Hf). fold feed. rewrite Hsel.
    destruct (feed_entries feed) as [|e0 es] eqn:Hes.
    { unfold selector in Hsel. simpl in Hsel. by destruct pre. }
    destruct (pre ++ (eid, e) :: post) as [|p ps] eqn:Hl; [by destruct pre|].
    rewrite <- Hl, post_batch_run, deliver_app.
    fold feed token chat_id source_title. rewrite Hpre, deliver_cons_send by done.
    fold text. by rewrite Hfail. }
  destruct (deliver_ok _ _ _ _ _ _ _ Hpre) as (Hs & Hd & Ht).
  intros final. subst final. rewrite Hrun. simpl.
  split_and!; [done..|]. by rewrite Ht.
Qed.

Hypothesis set_to_list_NoDup : ∀ s, NoDup (set_to_list s).

Lemma written_ids_NoDup (state : pyval) (st : run_state) :
  NoDup (written_ids set_to_list state st).
Proof.
  unfold written_ids, list_of_seen.
  eapply sublist_NoDup; [|apply truncate_seen_sublist].
  apply NoDup_omap_inj; [apply member_value_inj|apply set_to_list_NoDup].
Qed.

Lemma written_bounded (state : pyval) (st : run_state) (doc : pyval) :
  set_item state (lit "seen_ids") (PList (written_ids set_to_list state st)) = Ok doc →
  bounded_doc doc.
Proof.
  destruct state as [| | | | | |d]; simpl; try done. intros [= <-].
  exists (written_ids set_to_list (PDict d) st). split_and!.
  - unfold seen_ids. by rewrite dict_lookup_set.
  - apply truncate_seen_length.
  - apply written_ids_NoDup.
Qed.

Lemma post_batch_writes (token chat_id source_title : str) (state : pyval)
    (to_post : list (str * entry)) (st : run_state) (doc : pyval) :
  Forall not_a_write (trace st) →
  let final := (post_batch set_to_list w token chat_id source_title state to_post st).2 in
  WriteState doc ∈ trace final →
  bounded_doc doc ∧ disk final = Holds (Json doc).
Proof.
  intros Hst final. subst final. rewrite post_batch_run.
  destruct (deliver_keeps w token chat_id source_title not_a_write to_post st)
    as [_ Ht]; [done..|].
  destruct (deliver w token chat_id source_title to_post st) as [[[]|x] st1];
    simpl in Ht.
  - rewrite persist_run.
    destruct (set_item _ _ _) as [doc'|x] eqn:Hset.
    2:{ simpl. intros Hin. rewrite Forall_forall in Ht. by apply Ht in Hin. }
    destruct (w_save w doc') as [|x emptied].
    2:{ simpl. intros Hin. rewrite Forall_forall in Ht. by apply Ht in Hin. }
    simpl. rewrite !elem_of_app, !list_elem_of_singleton.
    intros [[Hin|Heq]|?]; [| |done].
    + rewrite Forall_forall in Ht. by apply Ht in Hin.
    + injection Heq as ->. split; [by eapply written_bounded|done].
  - simpl. intros Hin. rewrite Forall_forall in Ht. by apply Ht in Hin.
Qed.

(** C5. Every document a run writes to the state file lists at most 1000
    identifiers, none of them twice, and is what the file holds when the
    run ends. *)
Theorem persisted_ids_bounded (f : file_state) (doc : pyval) :
  let final := (main mktime set_to_list w (initial f)).2 in
  WriteState doc ∈ trace final →
  bounded_doc doc ∧ disk final = Holds (Json doc).
Proof.
  intros final. subst final. unfold main.
  destruct (_ || _); [simpl; by intros ?%elem_of_nil|].
  unfold mbind, M_bind, lift.
  destruct (max_items_of _) as [m|]; [|simpl; by intros ?%elem_of_nil].
  unfold load_state_cmd. simpl.
  destruct (load_state f) as [state|]; [|simpl; by intros ?%elem_of_nil].
  destruct (seen_elements state) as [l|]; [|simpl; by intros ?%elem_of_nil].
  simpl. destruct (feed_entries _) as [|e0 es].
  { simpl. by intros ?%list_elem_of_singleton. }
  destruct (select_loop _ _ _ _) as [|p ps].
  { simpl. by intros ?%list_elem_of_singleton. }
  apply post_batch_writes. simpl. constructor.
Qed.

End RunFacts.

Lemma calm_run_writes_bounded :
  let doc := PDict [(lit "seen_ids",
                     PList [PStr (lit "c"); PStr (lit "b"); PStr (lit "a")])] in
  bounded_doc doc
  ∧ disk (main Sample.mktime elements Sample.calm (initial Missing)).2 = Holds (Json doc).
Proof.
  apply (persisted_ids_bounded Sample.mktime elements Sample.calm
           (fun s => NoDup_elements s) Missing).
  apply (list_elem_of_lookup_2 _ 6). vm_compute. reflexivity.
Defined.

Lemma second_delivery_fails :
  let final := (main Sample.mktime elements Sample.stormy (initial Missing)).2 in
  main Sample.mktime elements Sample.stormy (initial Missing) =
    (Raise (HTTPError 500),
     attempted (lit "T") (lit "@c") (build_message Sample.second (lit "Feed"))
       (delivered (lit "T") (lit "@c") (build_message Sample.first (lit "Feed"))
          (lit "a") (started Missing)))
  ∧ exit_status (main Sample.mktime elements Sample.stormy (initial Missing)).1 = 1
  ∧ mem_seen final
    = list_to_set (with_message (lit "Feed") [(lit "a", Sample.first)]).*1 ∪ seen_of Missing
  ∧ disk final = Missing
  ∧ trace final =
      batch_events (lit "T") (lit "@c") (lit "Feed") [(lit "a", Sample.first)]
      ++ [Post (sendMessage_url (lit "T")) (lit "@c")
            (build_message Sample.second (lit "Feed"))].
Proof.
  apply (failed_delivery_aborts Sample.mktime elements Sample.stormy Missing 5
           [(lit "a", Sample.first)] [(lit "c", Sample.third)]
           (lit "b") Sample.second);
    vm_compute; reflexivity.
Defined.

(** * Further properties *)

(** ** White space *)

Lemma lstrip_head (s : str) (c : N) : head (lstrip s) = Some c → is_space c = false.
Proof.
  induction s as [|a t IH]; simpl; [done|].
  destruct (is_space a) eqn:E; [done|]. simpl. by intros [= <-].
Qed.

Lemma lstrip_split (s : str) : ∃ p, s = p ++ lstrip s ∧ blank_text p.
Proof.
  induction s as [|a t (p & Hp & Hb)]; simpl.
  - exists []. split; [done|constructor].
  - destruct (is_space a) eqn:E.
    + exists (a :: p). split; [simpl; by rewrite <- Hp|by constructor].
    + exists []. split; [done|constructor].
Qed.

Lemma rstrip_split (s : str) : ∃ q, s = rstrip s ++ q ∧ blank_text q.
Proof.
  destruct (lstrip_split (reverse s)) as (p & Hp & Hb).
  exists (reverse p). split.
  - unfold rstrip. rewrite <- reverse_app, <- Hp. by rewrite reverse_involutive.
  - unfold blank_text in *. rewrite Forall_forall in *.
    intros c Hc. apply Hb. by apply elem_of_reverse.
Qed.

Lemma lstrip_last (s : str) (c : N) : last (lstrip s) = Some c → last s = Some c.
Proof.
  induction s as [|a t IH]; simpl; [done|].
  destruct (is_space a); [|done].
  intros H. specialize (IH H). destruct t; [done|]. done.
Qed.

Lemma rstrip_last (s : str) (c : N) : last (rstrip s) = Some c → is_space c = false.
Proof.
  unfold rstrip. rewrite last_reverse. apply lstrip_head.
Qed.

Lemma strip_trimmed (s : str) : trimmed (strip s).
Proof.
  split; intros c H.
  - by apply lstrip_head in H.
  - apply lstrip_last in H. by apply rstrip_last in H.
Qed.

Lemma lstrip_trimmed (s : str) :
  (∀ c, head s = Some c → is_space c = false) → lstrip s = s.
Proof.
  destruct s as [|a t]; [done|]. intros H. simpl. by rewrite (H a).
Qed.

Lemma strip_of_trimmed (s : str) : trimmed s → strip s = s.
Proof.
  intros [Hh Hl]. unfold strip.
  assert (Hr : rstrip s = s).
  { unfold rstrip. rewrite lstrip_trimmed; [apply reverse_involutive|].
    intros c Hc. rewrite head_reverse in Hc. by apply Hl. }
  rewrite Hr. by apply lstrip_trimmed.
Qed.

Lemma strip_blank (s : str) : strip s = [] → blank_text s.
Proof.
  intros H. destruct (rstrip_split s) as (q & Hq & Hbq).
  destruct (lstrip_split (rstrip s)) as (p & Hp & Hbp).
  unfold strip in H. rewrite H, app_nil_r in Hp.
  rewrite Hq, Hp. by apply Forall_app.
Qed.

Lemma inked_not_blank (s : str) : inked s → ¬ blank_text s.
Proof.
  unfold inked, blank_text. rewrite Exists_exists, Forall_forall.
  intros (c & Hc & Hs) Hb. specialize (Hb c Hc). congruence.
Qed.

Lemma strip_inked (s : str) : inked s → strip s ≠ [].
Proof. intros Hi Hs. by apply (inked_not_blank s Hi), strip_blank. Qed.

Lemma trimmed_inked (s : str) : trimmed s → s ≠ [] → inked s.
Proof.
  intros [Hh _] Hne. destruct s as [|a t]; [done|].
  apply Exists_cons_hd. by apply Hh.
Qed.

(** ** Text cleaning *)

Lemma has_double_space_cons (a b : N) (u : str) :
  has_double_space (a :: b :: u) =
    (a =? SPACE)%N && (b =? SPACE)%N || has_double_space (b :: u).
Proof. reflexivity. Qed.

Lemma replace_double_space_cons (a b : N) (u : str) :
  replace_double_space (a :: b :: u) =
    if (a =? SPACE)%N && (b =? SPACE)%N
    then SPACE :: replace_double_space u
    else a :: replace_double_space (b :: u).
Proof. reflexivity. Qed.

Lemma has_double_space_app (p q : str) :
  has_double_space (p ++ q) = false →
  has_double_space p = false ∧ has_double_space q = false.
Proof.
  induction p as [|a t IH]; [done|].
  destruct t as [|b u].
  - simpl. destruct q as [|c v]; [done|].
    intros [_ H]%orb_false_iff. done.
  - change ((a :: b :: u) ++ q) with (a :: (b :: u) ++ q) in *.
    change ((b :: u) ++ q) with (b :: (u ++ q)) in *.
    rewrite !has_double_space_cons.
    change (b :: u ++ q) with ((b :: u) ++ q).
    intros [H1 H2]%orb_false_iff. destruct (IH H2) as [H3 H4].
    split; [|done]. by rewrite H1.
Qed.

Lemma strip_no_double_space (s : str) :
  has_double_space s = false → has_double_space (strip s) = false.
Proof.
  intros H. destruct (rstrip_split s) as (q & Hq & _).
  destruct (lstrip_split (rstrip s)) as (p & Hp & _).
  rewrite Hq in H. apply has_double_space_app in H as [H _].
  rewrite Hp in H. by apply has_double_space_app in H as [_ H].
Qed.

Lemma replace_double_space_Forall (P : N → Prop) (s : str) :
  Forall P s → Forall P (replace_double_space s).
Proof.
  assert (G : ∀ n (s : str), (length s ≤ n)%nat →
                Forall P s → Forall P (replace_double_space s)).
  { clear s. induction n as [|n IH]; intros s Hn Hs.
    - destruct s; [done|simpl in Hn; lia].
    - destruct s as [|a [|b u]]; [done..|].
      rewrite replace_double_space_cons.
      apply Forall_cons in Hs as [Ha Hs].
      destruct ((a =? SPACE)%N && (b =? SPACE)%N) eqn:E.
      + apply andb_true_iff in E as [->%N.eqb_eq _].
        apply Forall_cons in Hs as [_ Hu].
        constructor; [done|]. apply IH; [simpl in Hn; lia|done].
      + constructor; [done|]. apply IH; [simpl in *; lia|done]. }
  by apply (G (length s)).
Qed.

Lemma collapse_spaces_Forall (P : N → Prop) (fuel : nat) (s : str) :
  Forall P s → Forall P (collapse_spaces fuel s).
Proof.
  revert s. induction fuel as [|fuel IH]; intros s Hs; [done|].
  simpl. destruct (has_double_space s); [|done].
  by apply IH, replace_double_space_Forall.
Qed.

Lemma collapse_spaces_length (fuel : nat) (s : str) :
  (length (collapse_spaces fuel s) ≤ length s)%nat.
Proof.
  revert s. induction fuel as [|fuel IH]; intros s; [done|].
  simpl. destruct (has_double_space s); [|done].
  etrans; [apply IH|]. apply replace_double_space_length.
Qed.

Lemma strip_Forall (P : N → Prop) (s : str) : Forall P s → Forall P (strip s).
Proof.
  intros H. destruct (rstrip_split s) as (q & Hq & _).
  destruct (lstrip_split (rstrip s)) as (p & Hp & _).
  rewrite Hq in H. apply Forall_app in H as [H _].
  rewrite Hp in H. by apply Forall_app in H as [_ H].
Qed.

Lemma strip_length (s : str) : (length (strip s) ≤ length s)%nat.
Proof.
  unfold strip. etrans; [apply lstrip_length|apply rstrip_length].
Qed.

Lemma replace_line_breaks_one_line (s : str) :
  one_line (replace_char CR SPACE (replace_char LF SPACE s)).
Proof.
  unfold one_line, replace_char. rewrite <- list_fmap_compose.
  apply Forall_fmap, Forall_forall. intros c _. simpl.
  destruct (c =? LF)%N eqn:E1.
  - by vm_compute.
  - apply N.eqb_neq in E1. destruct (c =? CR)%N eqn:E2; [by vm_compute|].
    apply N.eqb_neq in E2. done.
Qed.

Lemma replace_char_absent (old new : N) (s : str) :
  Forall (fun c => c ≠ old) s → replace_char old new s = s.
Proof.
  intros H. unfold replace_char. induction H as [|c t Hc _ IH]; [done|].
  rewrite fmap_cons, IH. apply N.eqb_neq in Hc. by rewrite Hc.
Qed.

Lemma collapse_spaces_fixed (fuel : nat) (s : str) :
  has_double_space s = false → collapse_spaces fuel s = s.
Proof. intros H. destruct fuel; [done|]. simpl. by rewrite H. Qed.

Lemma clean_text_trimmed (s : str) : trimmed (clean_text s).
Proof.
  unfold clean_text. destruct (str_truthy s); simpl; [apply strip_trimmed|by split].
Qed.

Lemma clean_text_one_line (s : str) : one_line (clean_text s).
Proof.
  unfold clean_text. destruct (str_truthy s); simpl; [|constructor].
  apply strip_Forall, collapse_spaces_Forall, replace_line_breaks_one_line.
Qed.

Lemma clean_text_single_spaced (s : str) : has_double_space (clean_text s) = false.
Proof.
  unfold clean_text. destruct (str_truthy s); simpl; [|done].
  apply strip_no_double_space, collapse_spaces_enough. lia.
Qed.

(** X1. A cleaned text has no line feed and no carriage return, no two
    spaces in a row, no white space at either end, and is no longer than
    the text it comes from. *)
Theorem clean_text_normal (s : str) :
  one_line (clean_text s)
  ∧ has_double_space (clean_text s) = false
  ∧ trimmed (clean_text s)
  ∧ (length (clean_text s) ≤ length s)%nat.
Proof.
  unfold clean_text. destruct (str_truthy s); simpl.
  2:{ split_and!; [constructor|done|by split|lia]. }
  set (r := replace_char CR SPACE (replace_char LF SPACE s)).
  split_and!.
  - apply strip_Forall, collapse_spaces_Forall, replace_line_breaks_one_line.
  - apply strip_no_double_space, collapse_spaces_enough. lia.
  - apply strip_trimmed.
  - etrans; [apply strip_length|]. etrans; [apply collapse_spaces_length|].
    unfold r, replace_char. by rewrite !length_fmap.
Qed.

(** X2. Cleaning a cleaned text changes nothing. *)
Theorem clean_text_idempotent (s : str) :
  clean_text (clean_text s) = clean_text s.
Proof.
  pose proof (clean_text_one_line s) as Hl.
  pose proof (clean_text_single_spaced s) as Hd.
  pose proof (clean_text_trimmed s) as Ht.
  set (r := clean_text s) in *. unfold clean_text at 1.
  destruct (str_truthy r) eqn:E; simpl; [|by destruct r].
  rewrite (replace_char_absent LF) by (eapply Forall_impl; [exact Hl|]; naive_solver).
  rewrite (replace_char_absent CR) by (eapply Forall_impl; [exact Hl|]; naive_solver).
  rewrite collapse_spaces_fixed by done.
  by apply strip_of_trimmed.
Qed.

(** ** Entry identifier, again *)

Lemma attr_or_nonempty (a : option str) (rest : str) : rest ≠ [] → attr_or a rest ≠ [].
Proof.
  intros H. destruct a as [[|c t]|]; simpl; done.
Qed.

(** X3. The identifier of an entry is never the empty string: an entry
    with nothing to identify it still gets the bar of the fallback. *)
Theorem pick_entry_id_nonempty (e : entry) : pick_entry_id e ≠ [].
Proof.
  unfold pick_entry_id. do 3 apply attr_or_nonempty.
  intros H. apply (f_equal length) in H. rewrite !length_app in H.
  change (length (lit "|")) with 1%nat in H. simpl in H. lia.
Qed.

(** ** Message builder, again *)

Lemma inked_app_l (p q : str) : inked p → inked (p ++ q).
Proof. intros H. apply Exists_app. by left. Qed.

Lemma inked_app_r (p q : str) : inked q → inked (p ++ q).
Proof. intros H. apply Exists_app. by right. Qed.

Lemma join_inked (sep : str) (parts : list str) :
  parts ≠ [] → Forall inked parts → inked (join sep parts).
Proof.
  intros Hne Hall. destruct Hall as [|p rest Hp _]; [done|].
  destruct rest; simpl; [done|]. by apply inked_app_l.
Qed.

Lemma truncate_summary_inked (s : str) : inked s → inked (truncate_summary s).
Proof.
  intros H. unfold truncate_summary. destruct (280 <? length s)%nat; [|done].
  apply inked_app_r. apply Exists_cons_hd. by vm_compute.
Qed.

Lemma truncate_summary_nil (s : str) : truncate_summary s = [] ↔ s = [].
Proof.
  unfold truncate_summary. destruct (280 <? length s)%nat eqn:E; [|done].
  apply Nat.ltb_lt in E. split.
  - intros H. apply (f_equal length) in H. rewrite length_app in H.
    change (length (lit "...")) with 3%nat in H. simpl in H. lia.
  - intros ->. simpl in E. lia.
Qed.

Lemma summary_segment_inked (e : entry) :
  summary_segment e ≠ [] → inked (summary_segment e).
Proof.
  unfold summary_segment. intros H. apply truncate_summary_inked.
  apply trimmed_inked; [apply clean_text_trimmed|].
  intros Hnil. apply H. by apply truncate_summary_nil.
Qed.

Lemma str_truthy_true (s : str) : str_truthy s = true ↔ s ≠ [].
Proof. by destruct s. Qed.

Lemma str_truthy_false (s : str) : str_truthy s = false ↔ s = [].
Proof. by destruct s. Qed.

Lemma message_parts_inked (title summary link source_title : str) :
  (summary ≠ [] → inked summary) →
  Forall inked (message_parts title summary link source_title).
Proof.
  intros Hs. unfold message_parts. rewrite !Forall_app. split_and!.
  - destruct (str_truthy title); constructor; [|done].
    apply inked_app_l, Exists_cons_hd. by vm_compute.
  - destruct (str_truthy summary) eqn:E; constructor; [|done].
    by apply Hs, str_truthy_true.
  - destruct (str_truthy link); constructor; [|done].
    apply inked_app_l, Exists_cons_hd. by vm_compute.
  - destruct (str_truthy source_title); constructor; [|done].
    apply inked_app_l, Exists_cons_hd. by vm_compute.
Qed.

Lemma message_parts_nil (title summary link source_title : str) :
  message_parts title summary link source_title = [] ↔
    title = [] ∧ summary = [] ∧ link = [] ∧ source_title = [].
Proof.
  unfold message_parts. split.
  - destruct title, summary, link, source_title; simpl; done.
  - by intros (-> & -> & -> & ->).
Qed.

(** X4. The message of an entry is empty exactly when there is nothing to
    show: the cleaned title and the cleaned summary are empty, and so are
    the link and the source title. A link or a source title of white space
    only still makes a message. *)
Theorem build_message_empty_iff (e : entry) (source_title : str) :
  build_message e source_title = [] ↔
    clean_text (getattr_str (e_title e)) = []
    ∧ clean_text (raw_summary e) = []
    ∧ getattr_str (e_link e) = []
    ∧ source_title = [].
Proof.
  unfold build_message. split.
  - intros H.
    destruct (decide (message_parts (clean_text (getattr_str (e_title e)))
                        (summary_segment e) (getattr_str (e_link e)) source_title = []))
      as [Hnil|Hne].
    + apply message_parts_nil in Hnil as (Ht & Hs & Hl & Hst).
      split_and!; [done| |done..]. by apply truncate_summary_nil.
    + exfalso. revert H. apply strip_inked, join_inked; [done|].
      apply message_parts_inked, summary_segment_inked.
  - intros (Ht & Hs & Hl & ->). unfold summary_segment. by rewrite Ht, Hs, Hl.
Qed.

Lemma join_head (sep p : str) (rest : list str) :
  p ≠ [] → head (join sep (p :: rest)) = head p.
Proof.
  intros Hp. destruct rest; simpl; [done|]. by destruct p.
Qed.

Lemma join_last (sep : str) (parts : list str) (p : str) :
  last parts = Some p → p ≠ [] → last (join sep parts) = last p.
Proof.
  induction parts as [|a rest IH]; [done|].
  destruct rest as [|b rest']; simpl.
  - by intros [= ->].
  - intros Hl Hp. change (last (a ++ sep ++ join sep (b :: rest')) = last p).
    specialize (IH Hl Hp). rewrite !last_app, IH.
    destruct p as [|c t] using rev_ind; [done|]. by rewrite last_snoc.
Qed.

Lemma last_app_nonempty (p q : str) : q ≠ [] → last (p ++ q) = last q.
Proof.
  intros Hq. rewrite last_app. destruct q as [|c t] using rev_ind; [done|].
  by rewrite last_snoc.
Qed.

Lemma truncate_summary_last (s : str) (c : N) :
  trimmed s → last (truncate_summary s) = Some c → is_space c = false.
Proof.
  intros [_ Hl]. unfold truncate_summary. destruct (280 <? length s)%nat; [|apply Hl].
  rewrite last_app_nonempty by done. by intros [= <-].
Qed.

Lemma truncate_summary_head (s : str) (c : N) :
  trimmed s → head (truncate_summary s) = Some c → is_space c = false.
Proof.
  intros [Hh _]. unfold truncate_summary.
  destruct (280 <? length s)%nat eqn:E; [|apply Hh].
  apply Nat.ltb_lt in E. destruct s as [|a t]; [simpl in E; lia|].
  specialize (Hh a eq_refl).
  destruct (rstrip_split (take 277 (a :: t))) as (q & Hq & Hb).
  destruct (rstrip (take 277 (a :: t))) as [|b u].
  - simpl in Hq. rewrite <- Hq in Hb. apply Forall_cons in Hb as [Hb _]. congruence.
  - simpl in Hq. injection Hq as -> _. simpl. by intros [= <-].
Qed.

Lemma join_trimmed (sep : str) (parts : list str) :
  Forall (fun p => p ≠ [] ∧ ∀ c, head p = Some c → is_space c = false) parts →
  (∀ p c, last parts = Some p → last p = Some c → is_space c = false) →
  trimmed (join sep parts).
Proof.
  intros Hall Hlast. destruct parts as [|p rest]; [by split|].
  split; intros c Hc.
  - apply Forall_cons in Hall as [[Hp Hh] _].
    rewrite join_head in Hc by done. by apply Hh.
  - destruct (last (p :: rest)) as [q|] eqn:Hq; [|by apply last_None in Hq].
    assert (q ≠ []) as Hne.
    { apply last_Some_elem_of in Hq. rewrite Forall_forall in Hall.
      by apply Hall. }
    rewrite (join_last _ _ q) in Hc by done. by apply (Hlast q).
Qed.

Lemma lit_head (c : ascii) (l : string) (s : str) :
  head (lit (String c l) ++ s) = Some (N_of_ascii c).
Proof. reflexivity. Qed.

(** C6. In the message of an entry the summary stands cut: [build_message]
    joins the cleaned title, the summary segment, the link and the source
    title, where the segment is the cleaned summary when that has at most
    280 characters, and otherwise its first 277 characters, without white
    space at their end, followed by three dots. The segment never has more
    than 280 characters, the dots included; and it is the whole message
    when there is no title, no link and no source title. *)
Theorem build_message_cuts_summary (e : entry) (source_title : str) :
  let summary := clean_text (raw_summary e) in
  let segment :=
    if (280 <? length summary)%nat
    then rstrip (take 277 summary) ++ lit "..."
    else summary in
  build_message e source_title =
    strip (join [LF; LF]
             (message_parts (clean_text (getattr_str (e_title e))) segment
                (getattr_str (e_link e)) source_title))
  ∧ (length segment ≤ 280)%nat
  ∧ (clean_text (getattr_str (e_title e)) = [] → getattr_str (e_link e) = [] →
     build_message e [] = segment ∧ (length (build_message e []) ≤ 280)%nat).
Proof.
  intros summary segment.
  assert (Hseg : segment = truncate_summary summary) by reflexivity.
  assert (Hlen : (length segment ≤ 280)%nat).
  { rewrite Hseg. apply truncate_summary_length. }
  split_and!; [reflexivity|done|].
  intros Ht Hl.
  assert (Hmsg : build_message e [] = segment).
  { unfold build_message, summary_segment. fold summary. rewrite Ht, Hl, <- Hseg.
    unfold message_parts. simpl.
    destruct (str_truthy segment) eqn:E; simpl.
    - apply strip_of_trimmed. rewrite Hseg. split; intros c.
      + apply truncate_summary_head, clean_text_trimmed.
      + apply truncate_summary_last, clean_text_trimmed.
    - by destruct segment. }
  split; [done|]. by rewrite Hmsg.
Qed.

(** X5. A message neither starts nor ends with white space; and the final
    [strip] of [build_message] removes nothing, so that the message is its
    parts joined by blank lines, whenever there is a source title or the
    link does not end with white space. *)
Theorem build_message_layout (e : entry) (source_title : str) :
  let title := clean_text (getattr_str (e_title e)) in
  let link := getattr_str (e_link e) in
  trimmed (build_message e source_title)
  ∧ (source_title ≠ [] ∨ (∀ c, last link = Some c → is_space c = false) →
     build_message e source_title =
       join [LF; LF] (message_parts title (summary_segment e) link source_title)).
Proof.
  intros title link. split; [apply strip_trimmed|].
  intros Hend. unfold build_message. fold title link.
  apply strip_of_trimmed.
  destruct (clean_text_trimmed (getattr_str (e_title e))) as [_ Htl].
  pose proof (clean_text_trimmed (raw_summary e)) as Hsum.
  fold title in Htl. set (summary := summary_segment e).
  assert (Hsl : ∀ c, last summary = Some c → is_space c = false).
  { intros c. by apply truncate_summary_last. }
  assert (Hsh : ∀ c, head summary = Some c → is_space c = false).
  { intros c. by apply truncate_summary_head. }
  unfold message_parts.
  set (pT := title_prefix ++ title).
  set (pL := lit "Kaynak: " ++ link). set (pD := lit "(" ++ source_title ++ lit ")").
  assert (HT : str_truthy title = true → ∀ c, last pT = Some c → is_space c = false).
  { intros E%str_truthy_true c. unfold pT. rewrite last_app_nonempty by done.
    apply Htl. }
  assert (HL : str_truthy link = true → str_truthy source_title = false →
               ∀ c, last pL = Some c → is_space c = false).
  { intros E%str_truthy_true E'%str_truthy_false c. unfold pL.
    rewrite last_app_nonempty by done. by destruct Hend as [?|Hend]; [|apply Hend]. }
  assert (HD : ∀ c, last pD = Some c → is_space c = false).
  { intros c. unfold pD. rewrite app_assoc.
    change (lit ")") with [41%N]. rewrite last_snoc. by intros [= <-]. }
  apply join_trimmed.
  - rewrite !Forall_app. split_and!.
    + destruct (str_truthy title); constructor; [|done]. split; [done|].
      intros c [= <-]. by vm_compute.
    + destruct (str_truthy summary) eqn:E; constructor; [|done].
      split; [by apply str_truthy_true|done].
    + destruct (str_truthy link); constructor; [|done]. unfold pL. split.
      * intros H. apply (f_equal head) in H. by rewrite lit_head in H.
      * intros c. rewrite lit_head. intros [= <-]. by vm_compute.
    + destruct (str_truthy source_title); constructor; [|done]. unfold pD. split.
      * intros H. apply (f_equal head) in H. by rewrite lit_head in H.
      * intros c. rewrite lit_head. intros [= <-]. by vm_compute.
  - intros p c.
    destruct (str_truthy title) eqn:E1, (str_truthy summary) eqn:E2,
      (str_truthy link) eqn:E3, (str_truthy source_title) eqn:E4;
      simpl; intros [= <-]; auto.
Qed.

Lemma str_truthy_true_ne (s : str) : str_truthy s = true → s ≠ [].
Proof. by destruct s. Qed.

(** ** Delivery loop, again *)

Section DeliveryMore.
Variable w : world.
Variables token chat_id source_title : str.

(** Whatever its outcome, the loop makes at most one request for each
    entry that gets a message, only adds to [seen], addresses its requests
    as configured, and when it fails it is the last request that failed. *)
Lemma deliver_outcome (l : list (str * entry)) (st : run_state) :
  ∀ r st', deliver w token chat_id source_title l st = (r, st') →
  (requests st ≤ requests st' ≤ requests st + length (with_message source_title l))%nat
  ∧ mem_seen st ⊆ mem_seen st'
  ∧ (Forall (addressed token chat_id) (trace st) →
     Forall (addressed token chat_id) (trace st'))
  ∧ (∀ x, r = Raise x →
       ∃ n, requests st' = S n ∧ (requests st ≤ n)%nat
            ∧ check_reply (w_reply w n) = Raise x).
Proof.
  revert st. induction l as [|[eid e] rest IH]; intros st r st' Hrun.
  - injection Hrun as <- <-. simpl. split_and!; [lia|lia|set_solver|done|done].
  - unfold with_message in *.
    destruct (str_truthy (build_message e source_title)) eqn:E.
    + rewrite deliver_cons_send in Hrun by done.
      rewrite filter_cons_True by done.
      destruct (check_reply (w_reply w (requests st))) as [[]|x] eqn:Ex.
      * destruct (IH _ _ _ Hrun) as (Hr & Hs & Ha & Hx).
        simpl in *. split_and!; [lia|lia|set_solver| |].
        -- intros Hst. apply Ha. rewrite !Forall_app. split_and!; [done| |].
           ++ repeat constructor. by apply str_truthy_true_ne.
           ++ by repeat constructor.
        -- intros x Hx'. destruct (Hx x Hx') as (n & Hn & Hle & Hc).
           exists n. split_and!; [done|lia|done].
      * injection Hrun as <- <-. simpl. split_and!; [lia|lia|set_solver| |].
        -- intros Hst. rewrite Forall_app. split; [done|].
           repeat constructor. by apply str_truthy_true_ne.
        -- intros x' [= <-]. exists (requests st). by split_and!.
    + rewrite deliver_cons_empty in Hrun by done.
      rewrite filter_cons_False by (simpl; by rewrite E). by apply IH.
Qed.

(** When every request is accepted the loop goes through the batch. *)
Lemma deliver_all_accepted (l : list (str * entry)) (st : run_state) :
  (∀ n, check_reply (w_reply w n) = Ok tt) →
  ∃ st1, deliver w token chat_id source_title l st = (Ok tt, st1)
         ∧ requests st1 = (requests st + length (with_message source_title l))%nat.
Proof.
  intros Hok. revert st. induction l as [|[eid e] rest IH]; intros st.
  - exists st. split; [done|simpl; lia].
  - unfold with_message in *.
    destruct (str_truthy (build_message e source_title)) eqn:E.
    + rewrite deliver_cons_send, Hok by done.
      rewrite filter_cons_True by done.
      destruct (IH (delivered token chat_id (build_message e source_title) eid st))
        as (st1 & H1 & H2).
      exists st1. split; [done|]. rewrite H2. simpl. lia.
    + rewrite deliver_cons_empty by done.
      rewrite filter_cons_False by (simpl; by rewrite E). apply IH.
Qed.

End DeliveryMore.

(** ** Selection, again *)

Section SelectorMore.
Variable mktime : struct_time → Z.

Lemma selector_entries (entries : list entry) (seen : gset str) (max_items : Z) :
  (selector mktime entries seen max_items).*2 =
    reverse (take (cap max_items)
               (filter (fun e => pick_entry_id e ∉ seen)
                  (sort_reverse (entry_sort_key mktime) entries))).
Proof.
  by rewrite selector_spec, fmap_reverse, fmap_take, unseen_entries.
Qed.

Lemma selector_entries_new (entries : list entry) (seen : gset str)
    (max_items : Z) (e : entry) :
  e ∈ (selector mktime entries seen max_items).*2 → pick_entry_id e ∉ seen.
Proof.
  rewrite selector_entries, elem_of_reverse. intros Hin.
  eapply elem_of_sublist in Hin; [|apply sublist_take].
  by apply list_elem_of_filter in Hin as [? _].
Qed.

Lemma selector_in_feed (entries : list entry) (seen : gset str) (max_items : Z) :
  Forall (fun p => p.1 = pick_entry_id p.2 ∧ p.2 ∈ entries)
    (selector mktime entries seen max_items).
Proof.
  apply Forall_forall. intros p Hp.
  rewrite selector_spec, elem_of_reverse in Hp.
  eapply elem_of_sublist in Hp; [|apply sublist_take].
  unfold unseen in Hp. apply list_elem_of_fmap in Hp as (e & -> & He).
  apply list_elem_of_filter in He as [_ He].
  by rewrite (sort_reverse_Permutation (entry_sort_key mktime) entries) in He.
Qed.

(** X6. The selector returns as many entries as the cap lets through, or
    all the new entries of the feed when they are fewer. *)
Theorem selector_length_exact (entries : list entry) (seen : gset str)
    (max_items : Z) :
  length (selector mktime entries seen max_items) =
    (cap max_items `min` length (filter (fun e => pick_entry_id e ∉ seen) entries))%nat.
Proof.
  rewrite <- (length_fmap snd), selector_entries, length_reverse, length_take.
  by rewrite (sort_reverse_Permutation (entry_sort_key mktime) entries).
Qed.

(** X7. Every selected pair is an entry of the feed with its identifier,
    and the selector prefers newer entries: a new entry of the feed that is
    left out is no newer than any selected entry. *)
Theorem selector_takes_newest (entries : list entry) (seen : gset str)
    (max_items : Z) :
  let key := entry_sort_key mktime in
  let selected := selector mktime entries seen max_items in
  Forall (fun p => p.1 = pick_entry_id p.2 ∧ p.2 ∈ entries) selected
  ∧ (∀ e s, e ∈ entries → pick_entry_id e ∉ seen → e ∉ selected.*2 →
       s ∈ selected.*2 → key e ≤ key s).
Proof.
  intros key selected. subst key selected. split.
  - apply selector_in_feed.
  - intros e s He Hnew Hout Hs.
    rewrite selector_entries in Hout, Hs. rewrite elem_of_reverse in Hout, Hs.
    set (news := filter (fun e => pick_entry_id e ∉ seen)
                   (sort_reverse (entry_sort_key mktime) entries)) in *.
    assert (Hsorted : StronglySorted (descending (entry_sort_key mktime)) news).
    { eapply StronglySorted_sublist; [apply sublist_filter|apply sort_reverse_sorted]. }
    assert (Hin : e ∈ news).
    { apply list_elem_of_filter. split; [done|].
      by rewrite (sort_reverse_Permutation (entry_sort_key mktime) entries). }
    rewrite <- (take_drop (cap max_items) news) in Hin, Hsorted.
    apply elem_of_app in Hin as [Hin|Hin]; [done|].
    exact (StronglySorted_app_1_elem_of _ _ _ _ _ Hsorted Hs Hin).
Qed.

End SelectorMore.

(** ** Persistence, again *)

Lemma truncate_seen_short {A} (l : list A) :
  (length l ≤ 1000)%nat → truncate_seen l = l.
Proof.
  intros H. unfold truncate_seen. by rewrite (proj2 (Nat.ltb_ge _ _) H).
Qed.

(** X8. Cutting the list of seen identifiers keeps its end: the list is
    what is dropped followed by what is kept, nothing is dropped from a list
    of at most 1000 identifiers, and exactly 1000 are kept from a longer
    one. *)
Theorem truncate_seen_keeps_tail {A} (l : list A) :
  (∃ dropped, l = dropped ++ truncate_seen l)
  ∧ length (truncate_seen l) = (1000 `min` length l)%nat
  ∧ ((length l ≤ 1000)%nat → truncate_seen l = l).
Proof.
  unfold truncate_seen. destruct (1000 <? length l)%nat eqn:E.
  - apply Nat.ltb_lt in E. split_and!.
    + exists (take (length l - 1000) l). by rewrite take_drop.
    + rewrite length_drop. lia.
    + lia.
  - apply Nat.ltb_ge in E. split_and!; [by exists []|lia|done].
Qed.

(** ** The run as a whole *)

Section RunMore.
Variable mktime : struct_time → Z.
Variable set_to_list : gset (str + nat) → list (str + nat).
Variable w : world.

Lemma main_invalid (f : file_state) :
  valid_config (w_environ w) = false →
  main mktime set_to_list w (initial f) =
    (Raise (SystemExit missing_env_vars), initial f).
Proof.
  unfold valid_config, main. intros H.
  destruct (str_truthy (environ_get_stripped (FEED_URL (w_environ w)))),
    (str_truthy (environ_get_stripped (TELEGRAM_BOT_TOKEN (w_environ w)))),
    (str_truthy (environ_get_stripped (TELEGRAM_CHANNEL (w_environ w))));
    done.
Qed.

Lemma main_bad_max (f : file_state) (x : exn) :
  valid_config (w_environ w) = true →
  max_items_of (MAX_ITEMS (w_environ w)) = Raise x →
  main mktime set_to_list w (initial f) = (Raise x, initial f).
Proof.
  unfold valid_config, main. intros H Hmax.
  apply andb_true_iff in H as [[H1 H2]%andb_true_iff H3].
  rewrite H1, H2, H3. simpl. unfold mbind at 1, M_bind at 1, lift.
  by rewrite Hmax.
Qed.

Lemma max_items_of_raise (v : option (option Z)) (x : exn) :
  max_items_of v = Raise x → v = Some None ∧ x = ValueError.
Proof. destruct v as [[n|]|]; simpl; [done| |done]. by intros [= <-]. Qed.

Lemma with_message_length (source_title : str) (l : list (str * entry)) :
  (length (with_message source_title l) ≤ length l)%nat.
Proof. apply length_filter. Qed.

Lemma usable_false (f : file_state) :
  usable f = false → ∃ x, read_seen f = Raise x.
Proof.
  unfold usable, read_seen. destruct (load_state f) as [state|x]; simpl.
  - destruct (seen_elements state) as [l|x]; [done|]. by exists x.
  - by exists x.
Qed.

Lemma usable_true (f : file_state) :
  usable f = true → ∃ l, read_seen f = Ok l.
Proof.
  unfold usable, read_seen. destruct (load_state f) as [state|x]; simpl; [|done].
  destruct (seen_elements state) as [l|x]; [|done]. by exists l.
Qed.

Lemma usable_dict (f : file_state) :
  usable f = true → ∃ d, loaded f = PDict d.
Proof.
  unfold usable, loaded. destruct (load_state f) as [state|x]; [|done].
  destruct state as [| | | | | |d]; try done. by exists d.
Qed.

(** A run whose state does not load stops there. *)
Lemma main_unusable (f : file_state) (m : Z) (x : exn) :
  valid_config (w_environ w) = true →
  max_items_of (MAX_ITEMS (w_environ w)) = Ok m →
  read_seen f = Raise x →
  main mktime set_to_list w (initial f) = (Raise x, initial f).
Proof.
  unfold valid_config, main, read_seen. intros H Hmax Hread.
  apply andb_true_iff in H as [[H1 H2]%andb_true_iff H3].
  rewrite H1, H2, H3. simpl. unfold mbind at 1, M_bind at 1, lift.
  rewrite Hmax. unfold mbind at 1, M_bind at 1, load_state_cmd. simpl.
  destruct (load_state f) as [state|y]; simpl in Hread; [|by injection Hread as ->].
  unfold mbind at 1, M_bind at 1. by rewrite Hread.
Qed.

(** What a run does after its settings are read and its state is loaded,
    whatever the feed. *)
Lemma main_run_batch (f : file_state) (m : Z) :
  valid_config (w_environ w) = true →
  max_items_of (MAX_ITEMS (w_environ w)) = Ok m →
  usable f = true →
  let feed := w_fetch w (environ_get_stripped (FEED_URL (w_environ w))) in
  let batch := selector mktime (feed_entries feed) (seen_of f) m in
  main mktime set_to_list w (initial f) =
    match batch with
    | [] => print (nothing_to_post (feed_entries feed)) (started f)
    | _ =>
        post_batch set_to_list w
          (environ_get_stripped (TELEGRAM_BOT_TOKEN (w_environ w)))
          (environ_get_stripped (TELEGRAM_CHANNEL (w_environ w)))
          (clean_text (default [] (feed_title feed)))
          (loaded f) batch (started f)
    end.
Proof.
  intros Hcfg Hmax Hf feed batch. rewrite (main_run _ _ _ f m Hcfg Hmax Hf).
  fold feed. subst batch.
  destruct (feed_entries feed) as [|e0 es]; [done|].
  by destruct (selector _ _ _ _).
Qed.

Lemma main_run_posts (f : file_state) (m : Z) :
  valid_config (w_environ w) = true →
  max_items_of (MAX_ITEMS (w_environ w)) = Ok m →
  usable f = true →
  let feed := w_fetch w (environ_get_stripped (FEED_URL (w_environ w))) in
  let batch := selector mktime (feed_entries feed) (seen_of f) m in
  batch ≠ [] →
  main mktime set_to_list w (initial f) =
    post_batch set_to_list w
      (environ_get_stripped (TELEGRAM_BOT_TOKEN (w_environ w)))
      (environ_get_stripped (TELEGRAM_CHANNEL (w_environ w)))
      (clean_text (default [] (feed_title feed)))
      (loaded f) batch (started f).
Proof.
  intros Hcfg Hmax Hf feed batch Hne. rewrite (main_run_batch f m Hcfg Hmax Hf).
  fold feed batch. by destruct batch.
Qed.

(** X9. A run that ends with an exception has reported no write of the
    state file, and there are five causes: a missing setting ([SystemExit],
    before anything is done); a [MAX_ITEMS] that is not a number
    ([ValueError], before anything is done); a state that does not load,
    because the file is out of reach or because no set can be made of what
    it holds (before anything is done); the failure of the last request
    made; the failure of the write, after the deliveries. The state file
    is as it was before the run, except when the write failed after it had
    emptied the file. *)
Theorem main_failure_causes (f : file_state) (x : exn) (st' : run_state) :
  main mktime set_to_list w (initial f) = (Raise x, st') →
  Forall not_a_write (trace st')
  ∧ ((valid_config (w_environ w) = false
      ∧ x = SystemExit missing_env_vars ∧ st' = initial f)
     ∨ (valid_config (w_environ w) = true
        ∧ MAX_ITEMS (w_environ w) = Some None
        ∧ x = ValueError ∧ st' = initial f)
     ∨ (valid_config (w_environ w) = true
        ∧ read_seen f = Raise x ∧ st' = initial f)
     ∨ (valid_config (w_environ w) = true ∧ usable f = true
        ∧ disk st' = f
        ∧ ∃ n, requests st' = S n ∧ check_reply (w_reply w n) = Raise x)
     ∨ (valid_config (w_environ w) = true ∧ usable f = true
        ∧ ∃ doc emptied,
            w_save w doc = NotSaved x emptied
            ∧ disk st' = if emptied then Holds NotJson else f)).
Proof.
  destruct (valid_config (w_environ w)) eqn:Hcfg.
  2:{ rewrite main_invalid by done. intros [= <- <-].
      split; [constructor|]. by left. }
  destruct (max_items_of (MAX_ITEMS (w_environ w))) as [m|y] eqn:Hmax.
  2:{ rewrite (main_bad_max f y) by done. intros [= <- <-].
      apply max_items_of_raise in Hmax as [? ->].
      split; [constructor|]. right; left. by split_and!. }
  destruct (usable f) eqn:Hf.
  2:{ destruct (usable_false f Hf) as [y Hy].
      rewrite (main_unusable f m y) by done. intros [= <- <-].
      split; [constructor|]. do 2 right; left. by split_and!. }
  rewrite (main_run_batch f m) by done. simpl.
  destruct (selector _ _ _ _) as [|p ps]; [done|].
  rewrite post_batch_run.
  set (token := environ_get_stripped (TELEGRAM_BOT_TOKEN (w_environ w))).
  set (chat := environ_get_stripped (TELEGRAM_CHANNEL (w_environ w))).
  set (title := clean_text _).
  destruct (deliver_keeps w token chat title not_a_write (p :: ps) (started f))
    as [Hd Ht]; [done..|constructor |].
  destruct (deliver w token chat title (p :: ps) (started f)) as [r st1] eqn:Hrun.
  destruct (deliver_outcome _ _ _ _ _ _ _ _ Hrun) as (_ & _ & _ & Hx).
  simpl in Hd, Ht. destruct r as [[]|y].
  - rewrite persist_run. destruct (usable_dict f Hf) as [d ->]. simpl.
    destruct (w_save w _) as [|y emptied] eqn:Hsave; [done|].
    intros [= <- <-]. split; [done|]. do 4 right. split_and!; [done..|].
    eexists _, emptied. split; [exact Hsave|]. simpl. by rewrite Hd.
  - intros [= <- <-]. split; [done|]. do 3 right; left. split_and!; [done..|].
    destruct (Hx y eq_refl) as (n & Hn & _ & Hc). by exists n.
Qed.

(** X10. When its settings are there and its state loads, a run for which
    every entry of the feed is already seen, and so a run on an empty feed,
    returns after one printed line: it makes no request and leaves the state
    file and the seen identifiers as they were. *)
Theorem main_quiet (f : file_state) (m : Z) :
  let feed := w_fetch w (environ_get_stripped (FEED_URL (w_environ w))) in
  valid_config (w_environ w) = true →
  max_items_of (MAX_ITEMS (w_environ w)) = Ok m →
  usable f = true →
  (∀ e, e ∈ feed_entries feed → pick_entry_id e ∈ seen_of f) →
  main mktime set_to_list w (initial f) =
    (Ok tt,
     {| mem_seen := seen_of f; disk := f; requests := 0;
        trace := [Print (nothing_to_post (feed_entries feed))] |}).
Proof.
  intros feed Hcfg Hmax Hf Hseen. rewrite (main_run_batch f m) by done. simpl.
  fold feed.
  destruct (selector mktime (feed_entries feed) (seen_of f) m) as [|p ps] eqn:Hsel;
    [done|].
  exfalso.
  assert (Hin : p.2 ∈ (selector mktime (feed_entries feed) (seen_of f) m).*2).
  { rewrite Hsel. apply list_elem_of_fmap_2. left. }
  apply selector_entries_new in Hin as Hnew.
  pose proof (selector_in_feed mktime (feed_entries feed) (seen_of f) m) as Hall.
  rewrite Hsel in Hall. apply Forall_cons in Hall as [[_ Hp] _].
  by apply Hnew, Hseen.
Qed.

Lemma dict_lookup_set_ne (d : list (str * pyval)) (key key' : str) (v : pyval) :
  key' ≠ key → dict_lookup (dict_set d key v) key' = dict_lookup d key'.
Proof.
  intros Hne. induction d as [|[k v'] rest IH]; simpl.
  - by rewrite decide_False.
  - destruct (decide (k = key)) as [->|Hk]; simpl.
    + by rewrite !decide_False.
    + destruct (decide (k = key')); [done|apply IH].
Qed.

(** X11. When its settings are there, its state loads, every request is
    accepted and the write succeeds, a run with new entries returns after
    it has made one request and one pause for each selected entry with a
    message, written the state file and printed the number of selected
    entries (those skipped for an empty message included); the document
    written is the state with, under ["seen_ids"], the members of [seen]
    cut to 1000, and with its other items as they were. *)
Theorem main_success (f : file_state) (m : Z) (doc : pyval) :
  let feed := w_fetch w (environ_get_stripped (FEED_URL (w_environ w))) in
  let token := environ_get_stripped (TELEGRAM_BOT_TOKEN (w_environ w)) in
  let chat_id := environ_get_stripped (TELEGRAM_CHANNEL (w_environ w)) in
  let source_title := clean_text (default [] (feed_title feed)) in
  let batch := selector mktime (feed_entries feed) (seen_of f) m in
  let seen := list_to_set (with_message source_title batch).*1 ∪ seen_of f in
  let ids := ids_to_write set_to_list (loaded f) seen in
  valid_config (w_environ w) = true →
  max_items_of (MAX_ITEMS (w_environ w)) = Ok m →
  usable f = true →
  (∀ n, check_reply (w_reply w n) = Ok tt) →
  batch ≠ [] →
  set_item (loaded f) (lit "seen_ids") (PList ids) = Ok doc →
  w_save w doc = Saved →
  main mktime set_to_list w (initial f) =
    (Ok tt,
     {| mem_seen := seen; disk := Holds (Json doc);
        requests := length (with_message source_title batch);
        trace := batch_events token chat_id source_title batch
                 ++ [WriteState doc; Print (posted_line (length batch))] |})
  ∧ seen_ids doc = Some ids
  ∧ (∀ key, key ≠ lit "seen_ids" →
       state_get doc key PNone = state_get (loaded f) key PNone).
Proof.
  intros feed token chat_id source_title batch seen ids
    Hcfg Hmax Hf Hok Hne Hdoc Hsave.
  split_and!.
  - rewrite (main_run_posts f m) by done.
    rewrite post_batch_run. fold feed token chat_id source_title batch.
    destruct (deliver_all_accepted w token chat_id source_title batch (started f) Hok)
      as (st1 & Hrun & Hreq).
    rewrite Hrun. destruct (deliver_ok _ _ _ _ _ _ _ Hrun) as (Hs & Hd & Ht).
    rewrite persist_run. unfold written_ids. rewrite Hs.
    change (mem_seen (started f)) with (seen_of f). fold seen.
    change (truncate_seen (list_of_seen set_to_list seen (foreign_of (loaded f))))
      with ids.
    rewrite Hdoc, Hsave, Ht, Hreq.
    change (requests (started f)) with 0%nat.
    change (trace (started f)) with (@nil event).
    rewrite <- app_assoc. reflexivity.
  - destruct (loaded f) as [| | | | | |d]; simpl in Hdoc; try done.
    injection Hdoc as <-. unfold seen_ids. by rewrite dict_lookup_set.
  - intros key Hkey. destruct (loaded f) as [| | | | | |d]; simpl in Hdoc; try done.
    injection Hdoc as <-. simpl. by rewrite dict_lookup_set_ne.
Qed.

Lemma member_value_hashable (state : pyval) (x : str + nat) (v : pyval) :
  member_value (foreign_of state) x = Some v → hashable v = true.
Proof.
  destruct x as [s|i]; simpl; [by intros [= <-]|].
  intros Hi. apply list_elem_of_lookup_2, foreign_of_key in Hi as [k Hk].
  by destruct v.
Qed.

Lemma list_of_seen_hashable (seen : gset str) (state : pyval) :
  forallb hashable (list_of_seen set_to_list seen (foreign_of state)) = true.
Proof.
  apply forallb_forall. intros v Hv. apply list_elem_of_In in Hv.
  unfold list_of_seen in Hv. apply list_elem_of_omap in Hv as (x & _ & Hx).
  by eapply member_value_hashable.
Qed.

Lemma seen_elements_set (d : list (str * pyval)) (l : list pyval) :
  forallb hashable l = true →
  seen_elements (PDict (dict_set d (lit "seen_ids") (PList l))) = Ok l.
Proof.
  intros Hl. unfold seen_elements, state_get. rewrite dict_lookup_set.
  unfold default, set_elements, py_iter, mbind, res_bind, id. by rewrite Hl.
Qed.

Lemma loaded_holds (doc : pyval) : loaded (Holds (Json doc)) = doc.
Proof. reflexivity. Qed.

(** A file that holds a dictionary with a list of hashable values under
    ["seen_ids"] gives the strings of the list as identifiers. *)
Lemma seen_of_holds (d : list (str * pyval)) (l : list pyval) :
  forallb hashable l = true →
  seen_of (Holds (Json (PDict (dict_set d (lit "seen_ids") (PList l)))))
    = string_members l.
Proof.
  intros Hl. unfold seen_of. by rewrite loaded_holds, seen_elements_set.
Qed.

(** [list(seen)] lists the elements of the set. *)
Hypothesis set_to_list_elem_of : ∀ s x, x ∈ set_to_list s ↔ x ∈ s.

Lemma list_of_seen_strings (seen : gset str) (state : pyval) :
  string_members (list_of_seen set_to_list seen (foreign_of state)) = seen.
Proof.
  unfold string_members, list_of_seen. apply set_eq. intros s.
  rewrite elem_of_list_to_set, list_elem_of_omap. split.
  - intros (v & Hv & Hs). destruct v; try done. injection Hs as ->.
    apply list_elem_of_omap in Hv as (x & Hx & Hval).
    apply set_to_list_elem_of in Hx. destruct x as [t|i]; simpl in Hval.
    + injection Hval as ->. unfold member_set in Hx.
      apply elem_of_union in Hx as [Hx|Hx].
      * apply elem_of_map in Hx as (t & [= ->] & Ht). done.
      * apply elem_of_list_to_set, list_elem_of_fmap in Hx as (j & Hj & _). done.
    + apply list_elem_of_lookup_2, foreign_of_key in Hval as [k Hk]. done.
  - intros Hs. exists (PStr s). split; [|done].
    apply list_elem_of_omap. exists (inl s). split; [|done].
    apply set_to_list_elem_of. unfold member_set.
    apply elem_of_union_l, elem_of_map. by exists s.
Qed.

(** X12. After a run that returns with at most 1000 members in [seen],
    the identifiers of the state file are those it listed before and those
    of the entries delivered in the run; so the next run, whatever its
    feed, selects none of the entries just delivered. *)
Theorem delivered_not_selected_again (f : file_state) (m : Z) (st1 : run_state) :
  let feed := w_fetch w (environ_get_stripped (FEED_URL (w_environ w))) in
  let source_title := clean_text (default [] (feed_title feed)) in
  let batch := selector mktime (feed_entries feed) (seen_of f) m in
  valid_config (w_environ w) = true →
  max_items_of (MAX_ITEMS (w_environ w)) = Ok m →
  main mktime set_to_list w (initial f) = (Ok tt, st1) →
  (length (list_of_seen set_to_list (mem_seen st1) (foreign_of (loaded f))) ≤ 1000)%nat →
  seen_of (disk st1) = list_to_set (with_message source_title batch).*1 ∪ seen_of f
  ∧ (∀ p next_feed next_max e,
       p ∈ with_message source_title batch → pick_entry_id e = p.1 →
       e ∉ (selector mktime next_feed (seen_of (disk st1)) next_max).*2).
Proof.
  intros feed source_title batch Hcfg Hmax Hrun Hlen.
  assert (Hf : usable f = true).
  { destruct (usable f) eqn:Hf; [done|].
    destruct (usable_false f Hf) as [y Hy].
    by rewrite (main_unusable f m y) in Hrun. }
  assert (Hseen : seen_of (disk st1)
                  = list_to_set (with_message source_title batch).*1 ∪ seen_of f).
  { rewrite (main_run_batch f m) in Hrun by done. simpl in Hrun.
    fold feed batch source_title in Hrun.
    destruct batch as [|p ps] eqn:Hb.
    - injection Hrun as <-. simpl. set_solver.
    - rewrite <- Hb in *. rewrite post_batch_run in Hrun.
      destruct (deliver _ _ _ _ _ _) as [[[]|y] st0] eqn:Hd; [|done].
      destruct (deliver_ok _ _ _ _ _ _ _ Hd) as (Hs & _ & _).
      rewrite persist_run in Hrun. destruct (usable_dict f Hf) as [d Hdict].
      rewrite Hdict in Hrun, Hlen. simpl in Hrun.
      destruct (w_save w _) as [|y emptied]; [|done].
      injection Hrun as <-. cbn [disk mem_seen] in *.
      unfold written_ids. rewrite truncate_seen_short by done.
      rewrite seen_of_holds by apply list_of_seen_hashable.
      rewrite list_of_seen_strings.
      change (mem_seen (started f)) with (seen_of f) in Hs. by rewrite Hs. }
  split; [done|].
  intros p next_feed next_max e Hp He Hin.
  apply selector_entries_new in Hin. apply Hin.
  rewrite Hseen, He. apply elem_of_union_l, elem_of_list_to_set.
  by apply list_elem_of_fmap_2.
Qed.

(** The write and the report of [persist] make no request. *)
Lemma persist_outcome (P : event → Prop) (state : pyval) (n : nat) (st : run_state) :
  (∀ doc, P (WriteState doc)) → (∀ line, P (Print line)) →
  Forall P (trace st) →
  requests (persist set_to_list w state n st).2 = requests st
  ∧ Forall P (trace (persist set_to_list w state n st).2).
Proof.
  intros Hw Hp Hst. rewrite persist_run.
  destruct (set_item _ _ _) as [doc|x]; [|done].
  destruct (w_save w doc) as [|x emptied]; simpl; [|done].
  split; [done|]. rewrite !Forall_app. by repeat constructor.
Qed.

(** X13. A run makes at most [max(1, MAX_ITEMS)] requests, five when
    [MAX_ITEMS] is not set, and none when its settings are not usable. *)
Theorem main_requests_bounded (f : file_state) :
  (requests (main mktime set_to_list w (initial f)).2 ≤
     match max_items_of (MAX_ITEMS (w_environ w)) with
     | Ok m => cap m
     | Raise _ => 0
     end)%nat
  ∧ (MAX_ITEMS (w_environ w) = None →
     (requests (main mktime set_to_list w (initial f)).2 ≤ 5)%nat).
Proof.
  assert (H : (requests (main mktime set_to_list w (initial f)).2 ≤
     match max_items_of (MAX_ITEMS (w_environ w)) with
     | Ok m => cap m
     | Raise _ => 0
     end)%nat).
  { destruct (valid_config (w_environ w)) eqn:Hcfg.
    2:{ rewrite main_invalid by done. simpl. lia. }
    destruct (max_items_of (MAX_ITEMS (w_environ w))) as [m|y] eqn:Hmax.
    2:{ by rewrite (main_bad_max f y). }
    destruct (usable f) eqn:Hf.
    2:{ destruct (usable_false f Hf) as [y Hy].
        rewrite (main_unusable f m y) by done. simpl. lia. }
    rewrite (main_run_batch f m) by done. simpl.
    pose proof (selector_length mktime
      (feed_entries (w_fetch w (environ_get_stripped (FEED_URL (w_environ w)))))
      (seen_of f) m) as Hlen.
    destruct (selector _ _ _ _) as [|p ps]; [simpl; lia|].
    rewrite post_batch_run.
    destruct (deliver _ _ _ _ _ _) as [r st1] eqn:Hrun.
    destruct (deliver_outcome _ _ _ _ _ _ _ _ Hrun) as ([_ Hr] & _).
    pose proof (with_message_length
      (clean_text (default [] (feed_title
         (w_fetch w (environ_get_stripped (FEED_URL (w_environ w)))))))
      (p :: ps)) as Hw.
    simpl in Hr. destruct r as [[]|y]; [|simpl; lia].
    destruct (persist_outcome (fun _ => True) (loaded f) (length (p :: ps)) st1)
      as [Hreq _]; [done..|by apply Forall_true|].
    rewrite Hreq. lia. }
  split; [done|]. intros Hnone. rewrite Hnone in H. exact H.
Qed.

(** X14. Every request of a run goes to the [sendMessage] address of the
    configured bot, for the configured channel, and carries a text that is
    not empty. *)
Theorem main_requests_addressed (f : file_state) :
  Forall (addressed (environ_get_stripped (TELEGRAM_BOT_TOKEN (w_environ w)))
            (environ_get_stripped (TELEGRAM_CHANNEL (w_environ w))))
    (trace (main mktime set_to_list w (initial f)).2).
Proof.
  destruct (valid_config (w_environ w)) eqn:Hcfg.
  2:{ rewrite main_invalid by done. constructor. }
  destruct (max_items_of (MAX_ITEMS (w_environ w))) as [m|y] eqn:Hmax.
  2:{ rewrite (main_bad_max f y) by done. constructor. }
  destruct (usable f) eqn:Hf.
  2:{ destruct (usable_false f Hf) as [y Hy].
      rewrite (main_unusable f m y) by done. constructor. }
  rewrite (main_run_batch f m) by done. simpl.
  destruct (selector _ _ _ _) as [|p ps]; [by repeat constructor|].
  rewrite post_batch_run.
  destruct (deliver _ _ _ _ _ _) as [r st1] eqn:Hrun.
  destruct (deliver_outcome _ _ _ _ _ _ _ _ Hrun) as (_ & _ & Ha & _).
  specialize (Ha (Forall_nil_2 _)).
  destruct r as [[]|y]; [|done].
  by apply persist_outcome.
Qed.

(** X15. A state that does not load stops the run before the feed is
    fetched, with a non-zero exit status and with the exception of lines 79
    and 80, and there are three such cases: a [PermissionError], when
    [.state] cannot be searched; an [AttributeError], when the JSON of the
    file is not a dictionary; a [TypeError], when no set can be made of
    what stands under ["seen_ids"] ([null], a boolean or a number, or a
    list with a list or a dictionary in it). *)
Theorem main_stops_on_unusable_state (f : file_state) (m : Z) (x : exn) :
  valid_config (w_environ w) = true →
  max_items_of (MAX_ITEMS (w_environ w)) = Ok m →
  read_seen f = Raise x →
  main mktime set_to_list w (initial f) = (Raise x, initial f)
  ∧ exit_status (main mktime set_to_list w (initial f)).1 = 1
  ∧ ((f = Unsearchable ∧ x = PermissionError)
     ∨ (∃ v, f = Holds (Json v) ∧ (∀ d, v ≠ PDict d) ∧ x = AttributeError)
     ∨ (∃ d y, f = Holds (Json (PDict d))
          ∧ dict_lookup d (lit "seen_ids") = Some y
          ∧ x = TypeError
          ∧ ((∀ l, py_iter y ≠ Ok l)
             ∨ (∃ l, y = PList l ∧ forallb hashable l = false)))).
Proof.
  intros Hcfg Hmax Hread.
  rewrite (main_unusable f m x Hcfg Hmax Hread). split_and!; [done..|].
  destruct f as [| | |[|v]]; try discriminate Hread.
  - left. by injection Hread as <-.
  - right. destruct v as [| | | | | |d];
      try (left; eexists; split_and!; [done|done|by injection Hread as <-]).
    right. exists d. unfold read_seen, seen_elements in Hread. simpl in Hread.
    destruct (dict_lookup d (lit "seen_ids")) as [y|] eqn:Hy; [|discriminate Hread].
    exists y. simpl in Hread.
    destruct y as [| | | |s|l|d']; simpl in Hread;
      try (injection Hread as <-; split_and!; [done..|by left]).
    + unfold set_elements, py_iter, mbind, res_bind in Hread.
      exfalso. revert Hread.
      destruct (forallb hashable ((λ c : N, PStr [c]) <$> s)) eqn:E; [done|].
      intros _. apply not_true_iff_false in E. apply E.
      apply forallb_forall. intros v [c [-> _]]%list_elem_of_In%list_elem_of_fmap.
      done.
    + unfold set_elements, py_iter, mbind, res_bind in Hread.
      destruct (forallb hashable l) eqn:E; [done|]. injection Hread as <-.
      split_and!; [done..|]. right. by exists l.
    + unfold set_elements, py_iter, mbind, res_bind in Hread.
      exfalso. revert Hread.
      destruct (forallb hashable ((λ item : str * pyval, PStr item.1) <$> d')) eqn:E;
        [done|].
      intros _. apply not_true_iff_false in E. apply E.
      apply forallb_forall. intros v [c [-> _]]%list_elem_of_In%list_elem_of_fmap.
      done.
Qed.

(** X16. When the write of the state file fails after a batch in which
    every request was accepted, the run ends with the exception of the
    write, so with a non-zero exit status, after all its requests: the
    messages are sent and none of their identifiers is recorded. The file
    is as it was, or emptied. *)
Theorem main_write_fails (f : file_state) (m : Z) (doc : pyval) (x : exn)
    (emptied : bool) :
  let feed := w_fetch w (environ_get_stripped (FEED_URL (w_environ w))) in
  let token := environ_get_stripped (TELEGRAM_BOT_TOKEN (w_environ w)) in
  let chat_id := environ_get_stripped (TELEGRAM_CHANNEL (w_environ w)) in
  let source_title := clean_text (default [] (feed_title feed)) in
  let batch := selector mktime (feed_entries feed) (seen_of f) m in
  let seen := list_to_set (with_message source_title batch).*1 ∪ seen_of f in
  let ids := ids_to_write set_to_list (loaded f) seen in
  valid_config (w_environ w) = true →
  max_items_of (MAX_ITEMS (w_environ w)) = Ok m →
  usable f = true →
  (∀ n, check_reply (w_reply w n) = Ok tt) →
  batch ≠ [] →
  set_item (loaded f) (lit "seen_ids") (PList ids) = Ok doc →
  w_save w doc = NotSaved x emptied →
  main mktime set_to_list w (initial f) =
    (Raise x,
     {| mem_seen := seen;
        disk := if emptied then Holds NotJson else f;
        requests := length (with_message source_title batch);
        trace := batch_events token chat_id source_title batch |})
  ∧ exit_status (main mktime set_to_list w (initial f)).1 = 1.
Proof.
  intros feed token chat_id source_title batch seen ids
    Hcfg Hmax Hf Hok Hne Hdoc Hsave.
  assert (Hrun : main mktime set_to_list w (initial f) =
    (Raise x,
     {| mem_seen := seen;
        disk := if emptied then Holds NotJson else f;
        requests := length (with_message source_title batch);
        trace := batch_events token chat_id source_title batch |})).
  { rewrite (main_run_posts f m) by done.
    rewrite post_batch_run. fold feed token chat_id source_title batch.
    destruct (deliver_all_accepted w token chat_id source_title batch (started f) Hok)
      as (st1 & Hrun & Hreq).
    rewrite Hrun. destruct (deliver_ok _ _ _ _ _ _ _ Hrun) as (Hs & Hd & Ht).
    rewrite persist_run. unfold written_ids. rewrite Hs.
    change (mem_seen (started f)) with (seen_of f). fold seen.
    change (truncate_seen (list_of_seen set_to_list seen (foreign_of (loaded f))))
      with ids.
    rewrite Hdoc, Hsave, Ht, Hreq, Hd. reflexivity. }
  split; [done|]. by rewrite Hrun.
Qed.

End RunMore.

(** ** The properties of the run on the sample worlds *)

Lemma read_only_run_fails_at_the_write :
  Forall not_a_write
    (trace (main Sample.mktime elements Scene.read_only (initial Scene.first_seen)).2)
  ∧ ((valid_config (w_environ Scene.read_only) = false
      ∧ OSError = SystemExit missing_env_vars
      ∧ (main Sample.mktime elements Scene.read_only (initial Scene.first_seen)).2
        = initial Scene.first_seen)
     ∨ (valid_config (w_environ Scene.read_only) = true
        ∧ MAX_ITEMS (w_environ Scene.read_only) = Some None
        ∧ OSError = ValueError
        ∧ (main Sample.mktime elements Scene.read_only (initial Scene.first_seen)).2
          = initial Scene.first_seen)
     ∨ (valid_config (w_environ Scene.read_only) = true
        ∧ read_seen Scene.first_seen = Raise OSError
        ∧ (main Sample.mktime elements Scene.read_only (initial Scene.first_seen)).2
          = initial Scene.first_seen)
     ∨ (valid_config (w_environ Scene.read_only) = true
        ∧ usable Scene.first_seen = true
        ∧ disk (main Sample.mktime elements Scene.read_only
                  (initial Scene.first_seen)).2 = Scene.first_seen
        ∧ ∃ n, requests
                 (main Sample.mktime elements Scene.read_only
                    (initial Scene.first_seen)).2 = S n
               ∧ check_reply (w_reply Scene.read_only n) = Raise OSError)
     ∨ (valid_config (w_environ Scene.read_only) = true
        ∧ usable Scene.first_seen = true
        ∧ ∃ doc emptied,
            w_save Scene.read_only doc = NotSaved OSError emptied
            ∧ disk (main Sample.mktime elements Scene.read_only
                      (initial Scene.first_seen)).2
              = if emptied then Holds NotJson else Scene.first_seen)).
Proof.
  apply (main_failure_causes Sample.mktime elements Scene.read_only Scene.first_seen
           OSError).
  vm_compute. reflexivity.
Defined.

Lemma all_seen_run_is_quiet :
  main Sample.mktime elements Sample.calm (initial Scene.all_seen) =
    (Ok tt,
     {| mem_seen := seen_of Scene.all_seen; disk := Scene.all_seen; requests := 0;
        trace := [Print (lit "No new items to post.")] |}).
Proof.
  apply (main_quiet Sample.mktime elements Sample.calm Scene.all_seen 5);
    [reflexivity..|].
  intros e He. apply list_elem_of_In in He. simpl in He.
  destruct He as [<-|[<-|[<-|[]]]];
    apply (bool_decide_unpack _); vm_compute; exact I.
Defined.

Lemma calm_run_posts_two :
  main Sample.mktime elements Sample.calm (initial Scene.first_seen) =
    (Ok tt,
     {| mem_seen := list_to_set [lit "b"; lit "c"] ∪ seen_of Scene.first_seen;
        disk := Holds (Json (Scene.listing ["c"; "b"; "a"]));
        requests := 2;
        trace :=
          batch_events (lit "T") (lit "@c") (lit "Feed")
            [(lit "b", Sample.second); (lit "c", Sample.third)]
          ++ [WriteState (Scene.listing ["c"; "b"; "a"]); Print (posted_line 2)] |})
  ∧ seen_ids (Scene.listing ["c"; "b"; "a"])
    = Some (ids_to_write elements (loaded Scene.first_seen)
              (list_to_set [lit "b"; lit "c"] ∪ seen_of Scene.first_seen))
  ∧ (∀ key, key ≠ lit "seen_ids" →
       state_get (Scene.listing ["c"; "b"; "a"]) key PNone
       = state_get (loaded Scene.first_seen) key PNone).
Proof.
  apply (main_success Sample.mktime elements Sample.calm Scene.first_seen 5
           (Scene.listing ["c"; "b"; "a"]));
    [reflexivity|reflexivity|reflexivity|intros n; reflexivity|by vm_compute
    |vm_compute; reflexivity|reflexivity].
Defined.

Lemma calm_run_is_not_repeated :
  seen_of (disk (main Sample.mktime elements Sample.calm (initial Scene.first_seen)).2)
    = list_to_set [lit "b"; lit "c"] ∪ seen_of Scene.first_seen
  ∧ (∀ p next_feed next_max e,
       p ∈ [(lit "b", Sample.second); (lit "c", Sample.third)] →
       pick_entry_id e = p.1 →
       e ∉ (selector Sample.mktime next_feed
              (seen_of (disk (main Sample.mktime elements Sample.calm
                                (initial Scene.first_seen)).2)) next_max).*2).
Proof.
  apply (delivered_not_selected_again Sample.mktime elements Sample.calm
           (fun s x => elem_of_elements s x) Scene.first_seen 5).
  - reflexivity.
  - reflexivity.
  - vm_compute. reflexivity.
  - vm_compute. lia.
Defined.

Lemma read_only_run_posts_and_fails :
  main Sample.mktime elements Scene.read_only (initial Scene.first_seen) =
    (Raise OSError,
     {| mem_seen := list_to_set [lit "b"; lit "c"] ∪ seen_of Scene.first_seen;
        disk := Scene.first_seen;
        requests := 2;
        trace := batch_events (lit "T") (lit "@c") (lit "Feed")
                   [(lit "b", Sample.second); (lit "c", Sample.third)] |})
  ∧ exit_status
      (main Sample.mktime elements Scene.read_only (initial Scene.first_seen)).1 = 1.
Proof.
  apply (main_write_fails Sample.mktime elements Scene.read_only Scene.first_seen 5
           (Scene.listing ["c"; "b"; "a"]) OSError false);
    [reflexivity|reflexivity|reflexivity|intros n; reflexivity|by vm_compute
    |vm_compute; reflexivity|reflexivity].
Defined.

Lemma list_state_stops_the_run :
  main Sample.mktime elements Sample.calm (initial Scene.not_a_dict)
    = (Raise AttributeError, initial Scene.not_a_dict)
  ∧ exit_status
      (main Sample.mktime elements Sample.calm (initial Scene.not_a_dict)).1 = 1
  ∧ ((Scene.not_a_dict = Unsearchable ∧ AttributeError = PermissionError)
     ∨ (∃ v, Scene.not_a_dict = Holds (Json v) ∧ (∀ d, v ≠ PDict d)
          ∧ AttributeError = AttributeError)
     ∨ (∃ d y, Scene.not_a_dict = Holds (Json (PDict d))
          ∧ dict_lookup d (lit "seen_ids") = Some y
          ∧ AttributeError = TypeError
          ∧ ((∀ l, py_iter y ≠ Ok l)
             ∨ (∃ l, y = PList l ∧ forallb hashable l = false)))).
Proof.
  apply (main_stops_on_unusable_state Sample.mktime elements Sample.calm
           Scene.not_a_dict 5 AttributeError); reflexivity.
Defined.
